(* ===== verification/_CoqProject ===== *)
-Q . S2P
Prelude.v
MachineInt.v
Utf.v
Engine.v
Jni.v
Session.v
Lifecycle.v
HandleTable.v
Roundtrip.v
Concurrency.v
