(* ===== verification/Prelude.v ===== *)
(** * A verification development of realm-java's native session bridge

    The program is one C++ translation unit of realm-java,
    [src/realm/realm-library/src/main/cpp/io_realm_objectserver_session_Session.cpp].
    It is the JNI boundary between the Java class
    [io.realm.objectserver.session.Session] and the native sync engine
    ([realm::sync::Client] and [realm::sync::Session]).  Five native
    functions make up the whole file:

    - [nativeCreateSession]: looks up the sync client, copies the local
      Realm path out of the Java string, allocates a [JNISession] wrapper
      and hands its address back to Java as a [jlong] handle (0 on failure);
    - [nativeBind]: copies the access token and the remote URL out of their
      Java strings and forwards them to the engine's [Session::bind];
    - [nativeUnbind]: deletes the wrapper, with no attempt to quiesce it;
    - [nativeRefresh]: forwards a new access token to [Session::refresh];
    - [nativeNotifyCommitHappened]: forwards a version to
      [Session::nonsync_transact_notify].

    Every body but [nativeUnbind] runs in a [try] block closed by
    [CATCH_STD()], which turns a C++ exception into a pending Java
    exception.  The parts interact through shared state only: the native
    heap that holds the wrappers, the JVM's table of pinned string
    buffers and global references, the pending Java exception, and the
    engine's session objects that the wrappers own.

    ** Layout of the development (in compile order)

    - [Prelude] (this file): the notation scope [jni_scope], the hint
      database [jni], shared tactics and generic lemmas on lists and
      integers.
    - [MachineInt]: [jlong] as a 64-bit two's-complement [Z], pointers of
      a 32- or 64-bit platform (class [Platform]), the casts
      [reinterpret_cast<jlong>(p)] and [reinterpret_cast<T*>(j)] written as
      sign extension and truncation, and the [jlong -> uint64] conversion
      of the commit version.
    - [Utf]: Java strings as lists of UTF-16 code units, the JVM's
      modified UTF-8 ([GetStringUTFChars]), the standard UTF-8 that
      realm's [JStringAccessor] produces (an error on an unpaired
      surrogate), and [std::string(const char* )], which stops at the
      first NUL.
    - [Engine]: C++ exceptions, and the interface the bridge expects from
      the sync engine (class [SyncEngine]: open a session on a client and a
      path, bind, refresh, notify), with a small reference engine that
      witnesses use.
    - [Jni]: the world the native code runs in (record [world]: native
      heap of wrappers, free list of addresses (the allocator: [new]
      takes the head, [delete] pushes back; no theorem depends on this
      order, only the witnesses do), allocation budget,
      live clients, pinned UTF buffers, global references, pending Java
      exception, trace log), the outcome monad [M] (value, C++ exception in
      flight, or undefined behaviour), and the primitives the file calls:
      [TR_ENTER], [CATCH_STD]/[ConvertException], [GetStringUTFChars],
      [ReleaseStringUTFChars], [std::string] construction,
      [JStringAccessor].
    - [Session]: the [JNISession] wrapper (constructor, destructor,
      [get_session]), the casts [SS]/[SC], and the five native functions,
      written statement by statement in the order of the source.  Its
      theorems give the behaviour of each function on every branch: the
      success path, each error path (null client, JVM out of memory,
      allocation failure, malformed UTF-16, engine rejection), and the
      paths that are undefined behaviour (null or dangling handle, null
      Java string).
    - [Lifecycle]: Java's side as sequences of native calls ([call],
      [run_call], [run_calls]) and the worlds they reach ([reachable], a
      step relation).  The invariant [world_wf] (the free list holds
      distinct, non-null, unused addresses of the platform; live wrappers
      sit at non-null addresses; one global reference per live wrapper) is
      proved once per primitive ([preserves], [frames]) and then for every
      reachable world by rule induction ([reachable_wf]).  The protocol a
      Java caller must respect ([call_ok], [protocol_ok]) is shown to
      rule out undefined behaviour for whole call sequences
      ([protocol_defined]).  A whole session (create, bind, notify,
      unbind) leaves the heap, the allocator, the global references and
      the pinned buffers as they were, on every engine
      ([session_lifecycle]).  Every live session can be
      released by unbinding each handle once ([unbind_all_releases]), and
      the handle create returns is a Java [long] naming the new wrapper
      ([nativeCreateSession_handle]); handles carry no generation, so a
      create that reuses a freed address returns the stale handle
      ([stale_handle_reissued]).
    - [HandleTable]: the specification's contract (sections 3-4): a table
      from handles to Session Wrappers with the per-handle state machine
      [created -> bound -> (refreshing <-> bound) -> unbound] as the step
      relation [spec_step], observed by Java as a return value and a
      pending-exception flag.  [abs_ok] relates the bridge's world to a
      table (one handle per live wrapper, the handle
      [reinterpret_cast<jlong>] gave it); [java_call] is a native call as
      Java sees it (the JVM rethrows the pending exception).  The
      refinement theorems [java_call_refines] and [java_calls_refine] show
      the bridge implements the contract, under the hypotheses [env_ok]
      (the JVM and C++ heap can allocate, clients are null or live) and
      [args_ok] (strings read with [GetStringUTFChars] are plain: no NUL,
      no surrogate).
    - [Roundtrip]: decoders for modified UTF-8 and UTF-8, as the engine's
      side would read the bytes, and the round trips: what either
      marshalling path hands the engine decodes to the Java string.
    - [Concurrency]: the native functions cut into their atomic steps on
      the shared world ([prog]; [nativeBind_steps] and the others): each
      JNI string call, the read of the wrapper, the engine call and the
      moment the engine's update lands in the wrapper ([write_back]).
      Two Java threads interleave their steps ([par_step]); [run_sched]
      is an executable scheduler, sound for [par_step].  Run alone, the
      cut functions are the functions of [Session] ([steps_equiv],
      proved by setoid rewriting with the equivalence [≡] of
      computations: a check of the cut, not of the code); every
      interleaving ends ([par_terminates]).  On every engine and world
      where a bind can succeed, an unbind during the bind on the same
      handle makes the engine's update land in a deleted wrapper
      ([bind_unbind_race], by symbolic execution of two schedules).  Safety under interleaving is
      thread-modular: [safe Inv p] says each step of [p], from any world
      satisfying [Inv], is defined and keeps [Inv], and [par_safe]
      shows two such programs interleave safely; the invariant
      [shared_ok] (the JVM can allocate, the wrappers at hand are live)
      is kept by every step of bind, refresh and notify, since none of
      them deletes a wrapper ([nondestructive_calls_safe]).

    ** What the theorems show

    - Exception boundary: no native function lets a C++ exception escape
      ([Session.natives_catch_all]); each kind becomes its Java class.
    - Behaviour of each function on each branch: [Session.*_ok] (success),
      [Session.*_error], [*_bad_url], [*_null_client], [*_null_token]
      (caught errors and accepted nulls), and the undefined-behaviour
      paths ([*_dangling_client], [*_jvm_oom], [*_dead]).
    - Resource accounting: the pinned UTF buffer leaks when the
      [std::string] copy throws ([*_bad_alloc_leaks]); the heap and the
      global references stay consistent along every call sequence
      ([Lifecycle.reachable_wf]).
    - Handles and integers: the pointer/handle round trip on both widths
      ([MachineInt.handle_of_pointer]), a reused address gives back the
      stale handle ([Lifecycle.stale_handle_reissued]), and a negative
      commit version reaches the engine wrapped to version + 2^64
      ([Session.nativeNotifyCommitHappened_negative_version]).
    - Strings: the two marshalling paths agree exactly on strings with no
      NUL and no surrogate, and differ otherwise
      ([Session.marshalling_agree]).
      [JStringAccessor] refuses exactly the strings that are not
      well-formed UTF-16 ([Utf.utf8_of_utf16_Some_iff] against the
      position-wise definition [utf16_valid]), so the URL of bind and the
      token of refresh are checked ([Session.nativeBind_bad_url],
      [Session.nativeRefresh_bad_token]); both encodings take one to
      three bytes per code unit ([Session.marshalled_length_bounds]), and
      neither loses information ([Roundtrip.marshalling_roundtrip]).
    - Refinement: the bridge implements the specification's handle table
      call by call and along whole call sequences
      ([HandleTable.java_call_refines], [java_calls_refine]), for paths
      and bind tokens without NUL or surrogates ([args_ok]).
    - Concurrency: the missing serialisation of unbind is a
      use-after-free on every engine ([Concurrency.bind_unbind_race]), and
      unbind is the only call that needs it: any two of bind, refresh
      and notify on live handles interleave without undefined behaviour,
      for every engine and scheduler
      ([Concurrency.nondestructive_calls_safe]).
    - Liveness, round trip and types: every session can be released
      ([Lifecycle.unbind_all_releases]); a whole session leaves no trace
      ([Lifecycle.session_lifecycle]); create returns a Java [long]
      that is 0 or names the new wrapper
      ([Lifecycle.nativeCreateSession_handle]).

    ** Plan

    Modelled in this order: machine integers and casts, string
    marshalling, the engine interface, the JNI world and primitives, the
    five native functions, call sequences with the heap invariant and
    protocol safety, then the specification's handle table and the
    refinement, the strings the conversions accept, the round trips
    of both encodings, two threads calling the bridge at once, and which
    pairs of concurrent calls are safe.  The whole of the source file's
    code (lines 41-111) is translated; what is left out is what the file
    only calls or includes, listed below with the reason.

    ** Fuel and bounds

    Nothing in the file loops; every definition is structural recursion
    on a list, so no fuel is needed.  Allocation failure is modelled by a
    budget [w_budget] of allocations the C++ heap still satisfies; the
    theorems quantify over it, so every allocation may fail.  The
    refinement assumes two allocations per call ([env_ok]: a budget of
    at least 2 and a non-empty free list), which is what the most
    demanding call needs: [nativeCreateSession] copies the path and
    allocates the wrapper, [nativeBind] copies the token and converts
    the URL; with less, the call fails with [bad_alloc] caught as a
    Java [OutOfMemoryError], which the specification does not list.

    ** Not modelled

    The sync engine itself (protocol, networking, history) is outside the
    file: it is the [SyncEngine] interface.  Threads are modelled only in
    [Concurrency], as interleavings of atomic steps under sequential
    consistency: the reorderings and torn reads of the C++ memory model
    are not, and neither are the engine's own threads (they are inside
    the engine, which the file does not contain).  The safety of
    concurrent calls is proved for pairs of calls; [nativeCreateSession]
    is left out of it because it reads the client, whose lifetime the
    file does not manage, and unbind because it is not safe (see
    [bind_unbind_race]).  Everywhere else
    calls run one after the other.  The wrapper's sync callbacks, the
    constructor of [JNISession] and the macros of [util.hpp] are not in
    the repository's sources; their effects are modelled from the
    specification.  The design notes of the specification (section 9:
    slots with generation counters, a result type at the boundary, a
    two-phase unbind) describe a reimplementation, not this code, and
    are not modelled; the theorems on handle reuse and on unbind show
    what the current code does instead.  The C++ allocator is a free
    list whose order is a modelling choice; the theorems assume nothing
    about which free address comes next beyond its being free and
    well formed.  Logging format is reduced to the list of entered
    function names. *)

From stdpp Require Export base gmap list strings.
From Stdlib Require Export ZArith Lia.

Declare Scope jni_scope.
Delimit Scope jni_scope with jni.

Create HintDb jni discriminated.
Create Rewrite HintDb jni_rw.

(** [lia] after turning [/] and [mod] into their Euclidean equations. *)
Ltac zlia := Z.to_euclidean_division_equations; lia.

(** Case analysis on every integer comparison of the goal and the
    hypotheses, each branch getting the comparison as a fact. *)
Ltac zbool_cases :=
  repeat match goal with
  | |- context [Z.leb ?a ?b] => destruct (Z.leb_spec a b)
  | |- context [Z.ltb ?a ?b] => destruct (Z.ltb_spec a b)
  | |- context [Z.eqb ?a ?b] => destruct (Z.eqb_spec a b)
  | H : context [Z.leb ?a ?b] |- _ => destruct (Z.leb_spec a b)
  | H : context [Z.ltb ?a ?b] |- _ => destruct (Z.ltb_spec a b)
  | H : context [Z.eqb ?a ?b] |- _ => destruct (Z.eqb_spec a b)
  end; simpl in *; try discriminate; try (exfalso; lia).

(** Discharge a hypothesis of a theorem at a concrete input. *)
Ltac discharge :=
  first [ reflexivity | discriminate | vm_compute; discriminate | vm_compute; reflexivity
        | solve [repeat constructor] | lia
        | apply (bool_decide_unpack _); vm_compute; reflexivity ].

(** Prove a concrete instance of theorem [t]: discharge each of its
    hypotheses in turn, then conclude by conversion. *)
Ltac use_theorem t :=
  let H := fresh "H" in
  pose proof t as H;
  repeat match type of H with
         | ?A -> _ => let a := fresh in assert (a : A) by discharge; specialize (H a); clear a
         end;
  lazymatch type of H with
  | forall _, _ => fail "a hypothesis or argument is left"
  | _ => exact H
  end.

(** Inversion that cleans up after itself. *)
Ltac invc H := inversion H; subst; clear H.

(** Generic facts on lists shared by the encoders. *)

Lemma Forall_flat_map {A B} (P : B -> Prop) (f : A -> list B) (l : list A) :
  Forall P (flat_map f l) <-> Forall (fun x => Forall P (f x)) l.
Proof.
  induction l as [|x l IH]; simpl; [split; constructor|].
  rewrite Forall_app, Forall_cons, IH. tauto.
Qed.

Lemma length_flat_map_le {A B} (f : A -> list B) (k : nat) (l : list A) :
  (forall x, length (f x) <= k) -> length (flat_map f l) <= k * length l.
Proof.
  intros Hk. induction l as [|x l IH]; simpl; [lia|].
  rewrite length_app. specialize (Hk x). lia.
Qed.

Lemma length_flat_map_ge {A B} (f : A -> list B) (l : list A) :
  (forall x, 1 <= length (f x)) -> length l <= length (flat_map f l).
Proof.
  intros Hk. induction l as [|x l IH]; simpl; [lia|].
  rewrite length_app. specialize (Hk x). lia.
Qed.

#[export] Hint Rewrite @Forall_flat_map : jni_rw.
