(* ===== verification/MachineInt.v ===== *)
(** * Machine integers at the JNI boundary

    Java hands native code a [jlong] (a signed 64-bit integer) and gets
    one back.  The session file uses [jlong] for three things: the
    address of a [sync::Client] (argument [clientPointer]), the address of
    a [JNISession] (return value of [nativeCreateSession] and argument
    [sessionPointer] of the others), and the commit [version].

    A pointer of the platform is an unsigned [ptr_bits]-bit integer, 32 or
    64 ([Platform]).  [reinterpret_cast<jlong>(p)] (line 55) sign-extends
    a 32-bit pointer and reads a 64-bit one as signed: both are
    [swrap ptr_bits].  [reinterpret_cast<T* >(j)] (the [SS] and [SC]
    macros) truncates to the pointer width: [uwrap ptr_bits].  The
    version is converted implicitly to the engine's unsigned 64-bit
    [version_type] (line 109): [uwrap 64]. *)

From S2P Require Import Prelude.

Local Open Scope Z_scope.

(** A target platform: the width of a data pointer. *)
Class Platform := {
  ptr_bits : Z;
  ptr_bits_cases : ptr_bits = 32 \/ ptr_bits = 64
}.

Definition platform64 : Platform := {| ptr_bits := 64; ptr_bits_cases := or_intror eq_refl |}.

Definition platform32 : Platform := {| ptr_bits := 32; ptr_bits_cases := or_introl eq_refl |}.

(** Two's complement reading of the low [w] bits of [z]. *)
Definition swrap (w z : Z) : Z := (z + 2 ^ (w - 1)) mod 2 ^ w - 2 ^ (w - 1).

(** Unsigned reading of the low [w] bits of [z]. *)
Definition uwrap (w z : Z) : Z := z mod 2 ^ w.

(** [jlong]: the Java [long], 64 bits signed. *)
Definition jlong_min : Z := - 2 ^ 63.
Definition jlong_max : Z := 2 ^ 63 - 1.

Definition is_jlong (z : Z) : bool := (jlong_min <=? z) && (z <=? jlong_max).

Section WithPlatform.
Context `{P : Platform}.

(** An address of the platform. *)
Definition is_ptr (p : Z) : bool := (0 <=? p) && (p <? 2 ^ ptr_bits).

(** [reinterpret_cast<jlong>(p)]: line 55 of the session file. *)
Definition jlong_of_ptr (p : Z) : Z := swrap ptr_bits p.

(** [reinterpret_cast<T* >(j)]: the [SS] and [SC] macros of the bridge. *)
Definition ptr_of_jlong (j : Z) : Z := uwrap ptr_bits j.

End WithPlatform.

(** The implicit conversion of the [jlong] version to the engine's
    [version_type] ([uint_fast64_t]), line 109. *)
Definition u64_of_jlong (j : Z) : Z := uwrap 64 j.

(** ** Generic facts on the wraps *)

Lemma uwrap_range w z : 0 <= w -> 0 <= uwrap w z < 2 ^ w.
Proof. intros Hw. unfold uwrap. apply Z.mod_pos_bound. lia. Qed.

Lemma uwrap_small w z : 0 <= z < 2 ^ w -> uwrap w z = z.
Proof. intros Hz. unfold uwrap. now apply Z.mod_small. Qed.

Lemma uwrap_add_mul w z k : uwrap w (z + k * 2 ^ w) = uwrap w z.
Proof.
  unfold uwrap. destruct (Z.eq_dec (2 ^ w) 0) as [E|E].
  - rewrite E, Z.mul_0_r, Z.add_0_r. reflexivity.
  - now rewrite Z.mod_add.
Qed.

Lemma pow_half w : 0 < w -> 2 ^ w = 2 * 2 ^ (w - 1).
Proof. intros Hw. rewrite <- Z.pow_succ_r by lia. f_equal. lia. Qed.

Lemma pow_pred_pos w : 0 < w -> 0 < 2 ^ (w - 1).
Proof. intros Hw. apply Z.pow_pos_nonneg; lia. Qed.

(** [swrap] and [uwrap] keep the same low bits. *)
Lemma uwrap_swrap w z : 0 < w -> uwrap w (swrap w z) = uwrap w z.
Proof.
  intros Hw. unfold uwrap, swrap.
  rewrite (pow_half w Hw). pose proof (pow_pred_pos w Hw).
  set (h := 2 ^ (w - 1)) in *.
  rewrite (Z.mod_eq (z + h)) by lia.
  replace (z + h - 2 * h * ((z + h) / (2 * h)) - h)
    with (z + (- ((z + h) / (2 * h))) * (2 * h)) by lia.
  apply Z.mod_add. lia.
Qed.

Lemma swrap_uwrap w z : 0 < w -> swrap w (uwrap w z) = swrap w z.
Proof.
  intros Hw. unfold uwrap, swrap. rewrite Zplus_mod_idemp_l. reflexivity.
Qed.

Lemma swrap_range w z : 0 < w -> - 2 ^ (w - 1) <= swrap w z < 2 ^ (w - 1).
Proof.
  intros Hw. unfold swrap.
  rewrite (pow_half w Hw). pose proof (pow_pred_pos w Hw).
  pose proof (Z.mod_pos_bound (z + 2 ^ (w - 1)) (2 * 2 ^ (w - 1)) ltac:(lia)). lia.
Qed.

Lemma swrap_small w z : 0 < w -> - 2 ^ (w - 1) <= z < 2 ^ (w - 1) -> swrap w z = z.
Proof.
  intros Hw Hz. unfold swrap. rewrite (pow_half w Hw).
  rewrite Z.mod_small by lia. lia.
Qed.

#[export] Hint Resolve uwrap_range swrap_range : jni.
#[export] Hint Rewrite uwrap_swrap swrap_uwrap uwrap_add_mul : jni_rw.

Lemma ptr_bits_pos `{Platform} : 0 < ptr_bits.
Proof. destruct ptr_bits_cases as [-> | ->]; lia. Qed.

Lemma ptr_bits_le_64 `{Platform} : ptr_bits <= 64.
Proof. destruct ptr_bits_cases as [-> | ->]; lia. Qed.

#[export] Hint Resolve ptr_bits_pos ptr_bits_le_64 : jni.

Lemma pow_ptr_bits_le `{Platform} : 2 ^ ptr_bits <= 2 ^ 64.
Proof. apply Z.pow_le_mono_r; auto with jni; lia. Qed.

Lemma is_ptr_spec `{Platform} p : is_ptr p = true <-> 0 <= p < 2 ^ ptr_bits.
Proof. unfold is_ptr. rewrite andb_true_iff, Z.leb_le, Z.ltb_lt. lia. Qed.

Lemma is_jlong_spec z : is_jlong z = true <-> - 2 ^ 63 <= z < 2 ^ 63.
Proof. unfold is_jlong, jlong_min, jlong_max. rewrite andb_true_iff, !Z.leb_le. lia. Qed.

(** ** Handles and pointers *)

Section Casts.
Context `{Platform}.

(** A handle made from a pointer of the platform ([reinterpret_cast<jlong>]
    at line 55) casts back ([SS]) to the same pointer. *)
Theorem ptr_of_jlong_of_ptr p :
  is_ptr p = true -> ptr_of_jlong (jlong_of_ptr p) = p.
Proof.
  intros Hp%is_ptr_spec. unfold ptr_of_jlong, jlong_of_ptr.
  rewrite uwrap_swrap by auto with jni. now apply uwrap_small.
Qed.

(** A handle is always a Java [long]: the cast at line 55 never loses
    information on a 32- or 64-bit platform. *)
Lemma jlong_of_ptr_is_jlong p : is_jlong (jlong_of_ptr p) = true.
Proof.
  apply is_jlong_spec. unfold jlong_of_ptr.
  pose proof (swrap_range ptr_bits p ptr_bits_pos).
  assert (2 ^ (ptr_bits - 1) <= 2 ^ 63).
  { apply Z.pow_le_mono_r; [lia|]. pose proof ptr_bits_le_64. lia. }
  lia.
Qed.

Lemma jlong_of_ptr_inj p q :
  is_ptr p = true -> is_ptr q = true -> jlong_of_ptr p = jlong_of_ptr q -> p = q.
Proof.
  intros Hp Hq E. rewrite <- (ptr_of_jlong_of_ptr p Hp), <- (ptr_of_jlong_of_ptr q Hq).
  now rewrite E.
Qed.

Lemma jlong_of_ptr_0 : jlong_of_ptr 0 = 0.
Proof.
  unfold jlong_of_ptr, swrap. assert (Hw : 0 < ptr_bits) by apply ptr_bits_pos.
  rewrite (pow_half ptr_bits Hw). pose proof (pow_pred_pos ptr_bits Hw).
  rewrite Z.add_0_l, Z.mod_small by lia. lia.
Qed.

Lemma is_ptr_0 : is_ptr 0 = true.
Proof.
  apply is_ptr_spec. split; [lia|]. apply Z.pow_pos_nonneg; [lia|]. pose proof ptr_bits_pos. lia.
Qed.

(** The null pointer, and only it, becomes the handle 0 that Java reads
    as "no session". *)
Lemma jlong_of_ptr_eq_0 p : is_ptr p = true -> jlong_of_ptr p = 0 <-> p = 0.
Proof.
  intros Hp. split; [|intros ->; apply jlong_of_ptr_0].
  intros E. apply (jlong_of_ptr_inj p 0 Hp is_ptr_0). now rewrite E, jlong_of_ptr_0.
Qed.

(** C32: A pointer of the platform becomes a handle that is a Java [long],
    that casts back ([SS], [SC]) to the same pointer, and that is 0
    exactly for the null pointer. *)
Theorem handle_of_pointer p :
  is_ptr p = true ->
  is_jlong (jlong_of_ptr p) = true /\ ptr_of_jlong (jlong_of_ptr p) = p /\
  (jlong_of_ptr p = 0 <-> p = 0).
Proof.
  intros Hp. split; [apply jlong_of_ptr_is_jlong|].
  split; [now apply ptr_of_jlong_of_ptr | now apply jlong_of_ptr_eq_0].
Qed.

End Casts.

#[export] Hint Resolve jlong_of_ptr_0 is_ptr_0 : jni.

(** ** The commit version *)

Lemma u64_of_jlong_nonneg j : 0 <= j < 2 ^ 64 -> u64_of_jlong j = j.
Proof. apply uwrap_small. Qed.

(** A negative commit version reaches the engine as version + 2^64
    after the implicit conversion to uint64. *)
Lemma u64_of_jlong_neg j : - 2 ^ 64 <= j < 0 -> u64_of_jlong j = j + 2 ^ 64.
Proof.
  intros Hj. unfold u64_of_jlong, uwrap.
  rewrite <- (Z.mod_add j 1) by lia. rewrite Z.mod_small; lia.
Qed.

(** ** Witnesses *)

(** On a 32-bit platform an address in the upper half becomes a negative
    handle, and still casts back to itself. *)
Lemma handle_of_pointer_witness :
  @jlong_of_ptr platform32 0x80001000 = - 0x7ffff000 /\
  is_jlong (@jlong_of_ptr platform32 0x80001000) = true /\
  @ptr_of_jlong platform32 (@jlong_of_ptr platform32 0x80001000) = 0x80001000 /\
  (@jlong_of_ptr platform32 0x80001000 = 0 <-> 0x80001000 = 0).
Proof. split; [reflexivity|]. use_theorem (@handle_of_pointer platform32 0x80001000). Defined.

