(* ===== verification/Utf.v ===== *)
(** * Marshalling Java strings to native bytes

    A Java string is a sequence of UTF-16 code units; the session file
    receives it as a [jstring] reference, which may be null.  The file
    reads strings in two ways:

    - [env->GetStringUTFChars(s, NULL)] (lines 50 and 67), defined by the
      JNI specification: the JVM returns the string in modified UTF-8,
      one unit at a time (a surrogate is encoded on its own, in three
      bytes; the unit 0 is encoded as the two bytes [C0 80]), followed by
      a NUL terminator.  The bytes are then copied by
      [std::string(const char* )], which stops at the first NUL.
    - [JStringAccessor(env, s)] (lines 71 and 95), realm-java's helper in
      util.cpp (not under src/, modelled from its contract): a null string
      gives a null [StringData]; otherwise the code units are transcoded
      to standard UTF-8, a surrogate pair becoming one four-byte sequence,
      and an unpaired surrogate makes the conversion throw.

    The file also shows that the conversion fails exactly on ill-formed
    UTF-16 ([utf8_of_utf16_Some_iff]), that the two encodings agree
    exactly on strings with no NUL and no surrogate, and that both take
    one to three bytes per code unit. *)

From S2P Require Import Prelude.

Local Open Scope Z_scope.

(** A [jstring] argument: [None] is the null reference. *)
Definition jstring : Type := option (list Z).

Definition is_unit (c : Z) : bool := (0 <=? c) && (c <? 0x10000).

Definition is_high (c : Z) : bool := (0xD800 <=? c) && (c <? 0xDC00).
Definition is_low (c : Z) : bool := (0xDC00 <=? c) && (c <? 0xE000).
Definition is_surrogate (c : Z) : bool := (0xD800 <=? c) && (c <? 0xE000).

Definition is_byte (b : Z) : bool := (0 <=? b) && (b <? 0x100).

(** The code units of an ASCII literal (for examples). *)
Definition units_of_string (s : string) : list Z :=
  map (fun c => Z.of_nat (Ascii.nat_of_ascii c)) (Stdlib.Strings.String.list_ascii_of_string s).

(** ** Modified UTF-8, as [GetStringUTFChars] returns it *)

Definition mutf8_unit (c : Z) : list Z :=
  if (1 <=? c) && (c <=? 0x7F) then [c]
  else if c <=? 0x7FF then
    [Z.lor 0xC0 (Z.shiftr c 6); Z.lor 0x80 (Z.land c 0x3F)]
  else
    [Z.lor 0xE0 (Z.shiftr c 12); Z.lor 0x80 (Z.land (Z.shiftr c 6) 0x3F);
     Z.lor 0x80 (Z.land c 0x3F)].

Definition mutf8 (s : list Z) : list Z := flat_map mutf8_unit s.

(** ** [std::string(const char* p)]: the bytes before the first NUL *)

Fixpoint cstr_prefix (buf : list Z) : list Z :=
  match buf with
  | [] => []
  | b :: rest => if b =? 0 then [] else b :: cstr_prefix rest
  end.

(** ** Standard UTF-8, as [JStringAccessor] produces it *)

Definition utf8_cp (cp : Z) : list Z :=
  if cp <? 0x80 then [cp]
  else if cp <? 0x800 then
    [Z.lor 0xC0 (Z.shiftr cp 6); Z.lor 0x80 (Z.land cp 0x3F)]
  else if cp <? 0x10000 then
    [Z.lor 0xE0 (Z.shiftr cp 12); Z.lor 0x80 (Z.land (Z.shiftr cp 6) 0x3F);
     Z.lor 0x80 (Z.land cp 0x3F)]
  else
    [Z.lor 0xF0 (Z.shiftr cp 18); Z.lor 0x80 (Z.land (Z.shiftr cp 12) 0x3F);
     Z.lor 0x80 (Z.land (Z.shiftr cp 6) 0x3F); Z.lor 0x80 (Z.land cp 0x3F)].

(** The code point of a surrogate pair. *)
Definition pair_cp (hi lo : Z) : Z := 0x10000 + Z.shiftl (hi - 0xD800) 10 + (lo - 0xDC00).

(** UTF-16 to UTF-8: [None] is the conversion failure that makes
    [JStringAccessor] throw. *)
Fixpoint utf8_of_utf16 (s : list Z) : option (list Z) :=
  match s with
  | [] => Some []
  | c :: rest =>
      if negb (is_surrogate c) then (fun t => utf8_cp c ++ t) <$> utf8_of_utf16 rest
      else if is_low c then None
      else match rest with
           | d :: rest' =>
               if is_low d then (fun t => utf8_cp (pair_cp c d) ++ t) <$> utf8_of_utf16 rest'
               else None
           | [] => None
           end
  end.

(** Well-formed UTF-16, stated position by position: every high
    surrogate is followed by a low one, every low surrogate follows a
    high one. *)
Definition utf16_valid (s : list Z) : Prop :=
  forall i c, s !! i = Some c ->
    (is_high c = true -> exists d, s !! S i = Some d /\ is_low d = true) /\
    (is_low c = true -> exists j d, i = S j /\ s !! j = Some d /\ is_high d = true).

(** ** From bit operations to arithmetic *)

Lemma lor_disjoint_add k a x :
  0 <= k -> a mod 2 ^ k = 0 -> 0 <= x < 2 ^ k -> Z.lor a x = a + x.
Proof.
  intros Hk Ha Hx. rewrite <- Z.add_lor_land.
  enough (Z.land a x = 0) as -> by lia.
  apply Z.bits_inj'. intros i Hi. rewrite Z.land_spec, Z.bits_0.
  destruct (Z.lt_ge_cases i k) as [Hlt|Hge].
  - rewrite <- (Z.mod_pow2_bits_low a k i Hlt), Ha. now rewrite Z.bits_0.
  - rewrite <- (Z.mod_small x (2 ^ k) Hx), Z.mod_pow2_bits_high by lia.
    apply andb_false_r.
Qed.

Lemma land_3F c : Z.land c 0x3F = c mod 64.
Proof. change 0x3F with (Z.ones 6). now rewrite Z.land_ones. Qed.

Lemma shiftr_div c n : 0 <= n -> Z.shiftr c n = c / 2 ^ n.
Proof. apply Z.shiftr_div_pow2. Qed.

Lemma lor_80 x : 0 <= x < 64 -> Z.lor 0x80 x = 0x80 + x.
Proof. apply (lor_disjoint_add 6); [lia|reflexivity]. Qed.

Lemma lor_C0 x : 0 <= x < 32 -> Z.lor 0xC0 x = 0xC0 + x.
Proof. intros. apply (lor_disjoint_add 6); [lia|reflexivity|lia]. Qed.

Lemma lor_E0 x : 0 <= x < 16 -> Z.lor 0xE0 x = 0xE0 + x.
Proof. intros. apply (lor_disjoint_add 5); [lia|reflexivity|lia]. Qed.

Lemma lor_F0 x : 0 <= x < 8 -> Z.lor 0xF0 x = 0xF0 + x.
Proof. intros. apply (lor_disjoint_add 4); [lia|reflexivity|lia]. Qed.

(** The continuation byte [0x80 | (x & 0x3F)]. *)
Lemma cont_byte x : Z.lor 0x80 (Z.land x 0x3F) = 0x80 + x mod 64.
Proof. rewrite land_3F. apply lor_80. apply Z.mod_pos_bound. lia. Qed.

#[export] Hint Rewrite cont_byte : jni_rw.

(** The three shapes of an encoded unit or code point, in arithmetic. *)
Lemma two_bytes c : 0 <= c < 0x800 ->
  [Z.lor 0xC0 (Z.shiftr c 6); Z.lor 0x80 (Z.land c 0x3F)] = [0xC0 + c / 64; 0x80 + c mod 64].
Proof.
  intros Hc. rewrite cont_byte, shiftr_div by lia. change (2 ^ 6) with 64.
  rewrite lor_C0 by zlia. reflexivity.
Qed.

Lemma three_bytes c : 0 <= c < 0x10000 ->
  [Z.lor 0xE0 (Z.shiftr c 12); Z.lor 0x80 (Z.land (Z.shiftr c 6) 0x3F);
   Z.lor 0x80 (Z.land c 0x3F)] = [0xE0 + c / 4096; 0x80 + (c / 64) mod 64; 0x80 + c mod 64].
Proof.
  intros Hc. rewrite !cont_byte, !shiftr_div by lia.
  change (2 ^ 12) with 4096. change (2 ^ 6) with 64.
  rewrite lor_E0 by zlia.
  reflexivity.
Qed.

Lemma four_bytes c : 0 <= c < 0x200000 ->
  [Z.lor 0xF0 (Z.shiftr c 18); Z.lor 0x80 (Z.land (Z.shiftr c 12) 0x3F);
   Z.lor 0x80 (Z.land (Z.shiftr c 6) 0x3F); Z.lor 0x80 (Z.land c 0x3F)] =
  [0xF0 + c / 262144; 0x80 + (c / 4096) mod 64; 0x80 + (c / 64) mod 64; 0x80 + c mod 64].
Proof.
  intros Hc. rewrite !cont_byte, !shiftr_div by lia.
  change (2 ^ 18) with 262144. change (2 ^ 12) with 4096. change (2 ^ 6) with 64.
  rewrite lor_F0 by zlia.
  reflexivity.
Qed.

(** ** Modified UTF-8 has no NUL byte *)

Definition all_units (s : list Z) : Prop := Forall (fun c => is_unit c = true) s.

Lemma mutf8_unit_bytes c : is_unit c = true -> Forall (fun b => 1 <= b < 0x100) (mutf8_unit c).
Proof.
  unfold is_unit, mutf8_unit. intros Hc. zbool_cases;
    try rewrite two_bytes by lia; try rewrite three_bytes by lia; repeat constructor; zlia.
Qed.

Lemma mutf8_bytes s : all_units s -> Forall (fun b => 1 <= b < 0x100) (mutf8 s).
Proof.
  intros Hs. unfold mutf8. apply Forall_flat_map.
  eapply Forall_impl; [exact Hs|]. apply mutf8_unit_bytes.
Qed.

Lemma cstr_prefix_app_nul bs rest :
  Forall (fun b => b <> 0) bs -> cstr_prefix (bs ++ 0 :: rest) = bs.
Proof.
  induction 1 as [|b bs Hb _ IH]; [reflexivity|]. simpl.
  destruct (Z.eqb_spec b 0); [contradiction|]. now rewrite IH.
Qed.

(** The [std::string] built from the JVM's buffer (lines 51 and 68) holds
    the whole modified UTF-8 encoding: the terminator is the only NUL. *)
Lemma cstr_prefix_mutf8 s rest :
  all_units s -> cstr_prefix (mutf8 s ++ 0 :: rest) = mutf8 s.
Proof.
  intros Hs. apply cstr_prefix_app_nul.
  eapply Forall_impl; [apply mutf8_bytes, Hs|]. simpl. lia.
Qed.

(** ** Where the two encodings agree *)

Lemma pair_cp_range c d :
  is_high c = true -> is_low d = true -> 0x10000 <= pair_cp c d < 0x110000.
Proof.
  unfold is_high, is_low, pair_cp. intros Hc Hd.
  rewrite Z.shiftl_mul_pow2 by lia. change (2 ^ 10) with 1024. zbool_cases; lia.
Qed.

Lemma utf8_cp_mutf8_unit c :
  0 < c < 0x10000 -> utf8_cp c = mutf8_unit c.
Proof. unfold utf8_cp, mutf8_unit. intros Hc. zbool_cases; reflexivity || lia. Qed.

Lemma head_mutf8_unit_high c :
  is_high c = true -> exists t, mutf8_unit c = 0xED :: t.
Proof.
  unfold is_high, mutf8_unit. intros Hc. zbool_cases; try lia.
  rewrite three_bytes by lia. eexists. do 2 f_equal. zlia.
Qed.

Lemma head_utf8_cp_supplementary cp :
  0x10000 <= cp < 0x110000 -> exists b t, utf8_cp cp = b :: t /\ 0xF0 <= b.
Proof.
  unfold utf8_cp. intros Hc. zbool_cases; try lia.
  rewrite four_bytes by lia. do 2 eexists. split; [reflexivity|]. zlia.
Qed.

(** On a string of code units, the bytes [JStringAccessor] produces
    (standard UTF-8, used for the URL in [nativeBind] and the token in
    [nativeRefresh]) are the bytes [GetStringUTFChars] produces (modified
    UTF-8, used for the token in [nativeBind]) exactly when the string has
    no NUL unit and no surrogate. *)
Theorem utf8_of_utf16_eq_mutf8 s :
  all_units s ->
  utf8_of_utf16 s = Some (mutf8 s) <-> Forall (fun c => c <> 0 /\ is_surrogate c = false) s.
Proof.
  unfold all_units. induction s as [|c s IH]; intros Hs; [split; constructor|].
  apply Forall_cons in Hs as [Hc Hs]. unfold is_unit in Hc.
  rewrite Forall_cons, <- IH by exact Hs. simpl.
  destruct (is_surrogate c) eqn:Es; simpl.
  - split; [intros H; exfalso|intros [[_ ?] _]; discriminate].
    destruct (is_low c) eqn:El; [discriminate|].
    assert (Eh : is_high c = true)
      by (unfold is_surrogate, is_low, is_high in *; zbool_cases; congruence || lia).
    destruct s as [|d s]; [discriminate|]. destruct (is_low d) eqn:Ed; [|discriminate].
    destruct (utf8_of_utf16 s); [|discriminate]. simpl in H.
    destruct (head_mutf8_unit_high c Eh) as [t1 E1].
    destruct (head_utf8_cp_supplementary (pair_cp c d) (pair_cp_range c d Eh Ed)) as (b & t2 & E2 & Hb).
    rewrite E1, E2 in H. simpl in H. injection H. lia.
  - destruct (Z.eqb_spec c 0) as [->|Hc0].
    + split; [|intros [[[] _] _]; reflexivity].
      destruct (utf8_of_utf16 s); discriminate.
    + rewrite utf8_cp_mutf8_unit by (zbool_cases; lia).
      destruct (utf8_of_utf16 s); simpl; split.
      * intros E. injection E as E%app_inv_head. subst. auto.
      * intros [_ E]. injection E as ->. reflexivity.
      * discriminate.
      * intros [_ E]. discriminate.
Qed.

(** ** Examples *)

(** ** The strings [JStringAccessor] refuses

    Well-formedness of UTF-16 ([utf16_valid]) read off the string's
    head: a non-surrogate or a high-low pair can be dropped, anything
    else at the head is ill-formed. *)

Lemma surrogate_false c : is_surrogate c = false -> is_high c = false /\ is_low c = false.
Proof. unfold is_surrogate, is_high, is_low. intros H. zbool_cases; auto. Qed.

Lemma high_not_low c : is_high c = true -> is_low c = false.
Proof. unfold is_high, is_low. intros H. zbool_cases; auto. Qed.

Lemma surrogate_high_or_low c : is_surrogate c = true -> is_low c = false -> is_high c = true.
Proof. unfold is_surrogate, is_high, is_low. intros H1 H2. zbool_cases; auto. Qed.

Lemma utf16_valid_nil : utf16_valid [].
Proof. intros i c Hc. destruct i; discriminate. Qed.

(** A string that starts with a low surrogate is ill-formed. *)
Lemma utf16_valid_low_head c s : is_low c = true -> ~ utf16_valid (c :: s).
Proof. intros Hl Hv. destruct (proj2 (Hv 0%nat c eq_refl) Hl) as (j & d & Hj & _). discriminate. Qed.

(** A high surrogate not followed by a low one is ill-formed. *)
Lemma utf16_valid_high_head c s :
  is_high c = true -> (forall d, head s = Some d -> is_low d = false) -> ~ utf16_valid (c :: s).
Proof.
  intros Hh Hs Hv. destruct (proj1 (Hv 0%nat c eq_refl) Hh) as (d & Hd & Hl).
  destruct s as [|d' s]; [discriminate|]. simpl in Hd. injection Hd as ->.
  rewrite (Hs d eq_refl) in Hl. discriminate.
Qed.

Lemma utf16_valid_cons c s :
  is_surrogate c = false -> utf16_valid (c :: s) <-> utf16_valid s.
Proof.
  intros Hc. destruct (surrogate_false c Hc) as [Hh Hl]. split.
  - intros Hv i x Hx. destruct (Hv (S i) x Hx) as [H1 H2]. split; [exact H1|].
    intros Hlx. destruct (H2 Hlx) as (j & d & Hj & Hd & Hhd). injection Hj as <-.
    destruct i as [|i]; simpl in Hd; [injection Hd as <-; congruence|]. eauto.
  - intros Hv [|i] x Hx; simpl in Hx.
    + injection Hx as <-. split; intros; congruence.
    + destruct (Hv i x Hx) as [H1 H2]. split; [exact H1|].
      intros Hlx. destruct (H2 Hlx) as (j & d & -> & Hd & Hhd). exists (S j), d. auto.
Qed.

Lemma utf16_valid_pair c d s :
  is_high c = true -> is_low d = true -> utf16_valid (c :: d :: s) <-> utf16_valid s.
Proof.
  intros Hc Hd. split.
  - intros Hv i x Hx. destruct (Hv (S (S i)) x Hx) as [H1 H2]. split; [exact H1|].
    intros Hlx. destruct (H2 Hlx) as (j & e & Hj & He & Hhe). injection Hj as <-.
    destruct i as [|i]; simpl in He; [injection He as <-; rewrite high_not_low in Hd by exact Hhe;
      discriminate|]. eauto.
  - intros Hv [|[|i]] x Hx; simpl in Hx.
    + injection Hx as <-. split; [eauto|]. intros Hl. rewrite high_not_low in Hl by exact Hc.
      discriminate.
    + injection Hx as <-. split; [intros Hh; rewrite high_not_low in Hd by exact Hh; discriminate|].
      intros _. exists 0%nat, c. auto.
    + destruct (Hv i x Hx) as [H1 H2]. split; [exact H1|].
      intros Hlx. destruct (H2 Hlx) as (j & e & -> & He & Hhe). exists (S (S j)), e. auto.
Qed.

(** [utf8_of_utf16] succeeds exactly on well-formed UTF-16. *)
Lemma utf8_of_utf16_Some_iff s : is_Some (utf8_of_utf16 s) <-> utf16_valid s.
Proof.
  induction s as [s IH] using (induction_ltof1 _ (@length Z)); unfold ltof in IH.
  destruct s as [|c s]; [split; [intros _; apply utf16_valid_nil|eauto]|]. simpl.
  destruct (is_surrogate c) eqn:Hs; simpl.
  - destruct (is_low c) eqn:Hl.
    + split; [intros [? ?]; discriminate|]. intros Hv. now apply utf16_valid_low_head in Hv.
    + pose proof (surrogate_high_or_low c Hs Hl) as Hh.
      destruct s as [|d s]; [split; [intros [? ?]; discriminate|]|].
      { intros Hv. exfalso. apply (utf16_valid_high_head c [] Hh); [intros ? ?; discriminate|exact Hv]. }
      destruct (is_low d) eqn:Hd.
      * rewrite utf16_valid_pair by assumption. rewrite <- IH by (simpl; lia).
        destruct (utf8_of_utf16 s); simpl; split; intros [? ?]; eauto; discriminate.
      * split; [intros [? ?]; discriminate|]. intros Hv. exfalso. revert Hv.
        apply utf16_valid_high_head; [exact Hh|]. intros d' Hd'. injection Hd' as <-. exact Hd.
  - rewrite utf16_valid_cons by exact Hs. rewrite <- IH by (simpl; lia).
    destruct (utf8_of_utf16 s); simpl; split; intros [? ?]; eauto; discriminate.
Qed.

Lemma utf8_of_utf16_None s : ~ utf16_valid s -> utf8_of_utf16 s = None.
Proof.
  intros Hv. destruct (utf8_of_utf16 s) eqn:H; [|reflexivity].
  exfalso. apply Hv, utf8_of_utf16_Some_iff. rewrite H. eauto.
Qed.

#[export] Instance utf16_valid_dec s : Decision (utf16_valid s).
Proof.
  destruct (utf8_of_utf16 s) eqn:H; [left|right].
  - apply utf8_of_utf16_Some_iff. rewrite H. eauto.
  - rewrite <- utf8_of_utf16_Some_iff, H. intros [? ?]; discriminate.
Defined.

(** ** Encoded lengths: one to three bytes per code unit *)

Lemma mutf8_unit_length c : (1 <= length (mutf8_unit c) <= 3)%nat.
Proof. unfold mutf8_unit. repeat case_match; simpl; lia. Qed.

Lemma mutf8_length s : (length s <= length (mutf8 s) <= 3 * length s)%nat.
Proof.
  split; [apply length_flat_map_ge|apply length_flat_map_le];
    intros c; pose proof (mutf8_unit_length c); lia.
Qed.

Lemma utf8_cp_length cp : 0 <= cp < 0x10000 -> (1 <= length (utf8_cp cp) <= 3)%nat.
Proof. intros Hc. unfold utf8_cp. zbool_cases; simpl; lia. Qed.

Lemma utf8_cp_pair_length c d :
  is_high c = true -> is_low d = true -> length (utf8_cp (pair_cp c d)) = 4%nat.
Proof. intros Hc Hd. pose proof (pair_cp_range c d Hc Hd). unfold utf8_cp. zbool_cases; reflexivity. Qed.

(** The UTF-8 of [s] has between one and three bytes per code unit: a
    surrogate pair, two units, becomes four bytes. *)
Lemma utf8_of_utf16_length s b :
  all_units s -> utf8_of_utf16 s = Some b -> (length s <= length b <= 3 * length s)%nat.
Proof.
  revert b. induction s as [s IH] using (induction_ltof1 _ (@length Z)); unfold ltof in IH.
  intros b Hu Hb. destruct s as [|c s]; simpl in Hb; [injection Hb as <-; simpl; lia|].
  apply Forall_cons in Hu as [Hc Hu]. unfold is_unit in Hc.
  destruct (is_surrogate c) eqn:Hs; simpl in Hb.
  - destruct (is_low c) eqn:Hl; [discriminate|]. destruct s as [|d s]; [discriminate|].
    apply Forall_cons in Hu as [_ Hu]. destruct (is_low d) eqn:Hd; [|discriminate].
    destruct (utf8_of_utf16 s) as [t|] eqn:Ht; simpl in Hb; [|discriminate]. injection Hb as <-.
    destruct (IH s ltac:(simpl; lia) t Hu Ht).
    pose proof (utf8_cp_pair_length c d (surrogate_high_or_low c Hs Hl) Hd).
    rewrite length_app. simpl. lia.
  - destruct (utf8_of_utf16 s) as [t|] eqn:Ht; simpl in Hb; [|discriminate]. injection Hb as <-.
    destruct (IH s ltac:(simpl; lia) t Hu Ht). pose proof (utf8_cp_length c ltac:(zbool_cases; lia)).
    rewrite length_app. simpl. lia.
Qed.

(** "t" followed by U+1F600 as a surrogate pair: the encodings differ. *)
Example emoji_encodings :
  utf8_of_utf16 [116; 0xD83D; 0xDE00] = Some [116; 0xF0; 0x9F; 0x98; 0x80] /\
  mutf8 [116; 0xD83D; 0xDE00] = [116; 0xED; 0xA0; 0xBD; 0xED; 0xB8; 0x80].
Proof. split; reflexivity. Qed.

(** A NUL unit inside the string survives the copy into [std::string]. *)
Example nul_unit_survives_copy :
  cstr_prefix (mutf8 [65; 0; 66] ++ [0]) = [65; 0xC0; 0x80; 66].
Proof. reflexivity. Qed.
