(* ===== verification/Engine.v ===== *)
(** * The sync engine, as the bridge sees it

    The session file calls four operations of the engine
    ([realm::sync::Session], wrapped by [JNISession]): the session's
    construction on a client and a local path (inside the [JNISession]
    constructor), [bind(remote_url, access_token)] (line 75),
    [refresh(access_token)] (line 98) and
    [nonsync_transact_notify(version)] (line 109).  The engine is outside
    the repository: the bridge depends only on the interface
    [SyncEngine], in which each call either returns the updated session
    or throws a C++ exception.  The bridge's theorems are proved for every
    instance; [ref_engine] is one small instance used by the witnesses. *)

From S2P Require Import Prelude.

Local Open Scope Z_scope.

(** What a C++ [throw] can carry across a native function's body. *)
Inductive cxx_exc :=
| BadAlloc                       (** [std::bad_alloc] *)
| StdException (what : string)   (** anything derived from [std::exception] *)
| OtherThrow.                    (** a thrown value of another type *)

#[export] Instance cxx_exc_eq_dec : EqDecision cxx_exc.
Proof. solve_decision. Defined.

(** The operations the bridge calls.  Strings arrive as the bytes the
    bridge produced: a [std::string] for the local path and the bind
    token, a [StringData] (null when the Java string was null) for the
    URL and the refresh token.  The version is the unsigned 64-bit
    [version_type]. *)
Class SyncEngine := {
  client : Type;
  session : Type;
  session_open : client -> list Z -> cxx_exc + session;
  session_bind : session -> option (list Z) -> list Z -> cxx_exc + session;
  session_refresh : session -> option (list Z) -> cxx_exc + session;
  session_notify : session -> Z -> cxx_exc + session
}.

(** ** A reference engine

    A session remembers its path, the URL and token it was bound with,
    and the highest version it was told about.  It refuses a null or
    empty URL and an empty refresh token; a null refresh token leaves the
    token as it was. *)

Record ref_session := mk_ref_session {
  rs_path : list Z;
  rs_url : option (list Z);
  rs_token : list Z;
  rs_version : Z
}.

Definition ref_bind (s : ref_session) (url : option (list Z)) (tok : list Z)
    : cxx_exc + ref_session :=
  match url with
  | Some ((_ :: _) as u) => inr (mk_ref_session (rs_path s) (Some u) tok (rs_version s))
  | _ => inl (StdException "Bad URL")
  end.

Definition ref_refresh (s : ref_session) (tok : option (list Z)) : cxx_exc + ref_session :=
  match tok with
  | Some ((_ :: _) as t) => inr (mk_ref_session (rs_path s) (rs_url s) t (rs_version s))
  | Some [] => inl (StdException "Bad access token")
  | None => inr s
  end.

Definition ref_notify (s : ref_session) (v : Z) : cxx_exc + ref_session :=
  inr (mk_ref_session (rs_path s) (rs_url s) (rs_token s) (Z.max v (rs_version s))).

Definition ref_engine : SyncEngine := {|
  client := unit;
  session := ref_session;
  session_open _ p := inr (mk_ref_session p None [] 0);
  session_bind := ref_bind;
  session_refresh := ref_refresh;
  session_notify := ref_notify
|}.
