(* ===== verification/Jni.v ===== *)
(** * The world of a native call, and the JNI primitives the bridge uses

    A native function of the session file runs against:
    - the native heap of [JNISession] wrappers, by address, with the
      allocator's LIFO free list and an allocation budget (an allocation
      beyond the budget throws [std::bad_alloc]);
    - the [sync::Client] objects, by address (owned elsewhere, only read);
    - the JVM: whether it can allocate a UTF buffer, the number of UTF
      buffers pinned by [GetStringUTFChars] and not yet released, the
      number of global references, the pending Java exception;
    - the trace log written by [TR_ENTER].

    A computation in [M] ends in one of three ways: a value and a new
    world, a C++ exception in flight (with the world at the throw), or
    undefined behaviour, after which nothing is promised.

    [TR_ENTER], [CATCH_STD], [ConvertException] and [JStringAccessor] are
    realm-java's helpers of util.hpp/util.cpp, which are not under src/:
    they are modelled from their contract in the specification. *)

From S2P Require Import Prelude Utf Engine.

Local Open Scope Z_scope.

(** Java exceptions the bridge can leave pending. *)
Inductive jthrowable_class :=
| JavaLangOutOfMemoryError   (** thrown by the JVM itself *)
| OutOfMemory                (** realm's, from [std::bad_alloc] *)
| FatalError                 (** realm's, from a [std::exception] *)
| RuntimeError.              (** realm's, from any other thrown value *)

Record jthrowable := mk_jthrowable { jt_class : jthrowable_class; jt_msg : string }.

(** Undefined behaviour the bridge can run into. *)
Inductive ub :=
| UB_NullJString        (** a null [jstring] given to [GetStringUTFChars] *)
| UB_NullCString        (** [std::string(NULL)] *)
| UB_NullDeref          (** [->] on a null wrapper pointer *)
| UB_DanglingSession    (** [->] on an address that holds no live wrapper *)
| UB_DanglingClient     (** a client address that holds no live client *)
| UB_BadDelete.         (** [delete] of an address that holds no live wrapper *)

Section World.
Context `{E : SyncEngine}.

(** [JNISession] (objectserver_shared.hpp): the engine session it owns,
    the local Realm path, and the Java [Session] object it keeps a global
    reference to. *)
Record JNISession := mkJNISession {
  js_session : session;
  js_local_path : list Z;
  js_java_obj : Z
}.

Record world := mkWorld {
  w_heap : gmap Z JNISession;
  w_free : list Z;
  w_budget : nat;
  w_clients : gmap Z client;
  w_jvm_oom : bool;
  w_pinned : nat;
  w_grefs : nat;
  w_exc : option jthrowable;
  w_trace : bool;
  w_log : list string
}.

Definition set_heap (h : gmap Z JNISession) (w : world) : world :=
  mkWorld h (w_free w) (w_budget w) (w_clients w) (w_jvm_oom w) (w_pinned w)
    (w_grefs w) (w_exc w) (w_trace w) (w_log w).
Definition set_free (f : list Z) (w : world) : world :=
  mkWorld (w_heap w) f (w_budget w) (w_clients w) (w_jvm_oom w) (w_pinned w)
    (w_grefs w) (w_exc w) (w_trace w) (w_log w).
Definition set_budget (n : nat) (w : world) : world :=
  mkWorld (w_heap w) (w_free w) n (w_clients w) (w_jvm_oom w) (w_pinned w)
    (w_grefs w) (w_exc w) (w_trace w) (w_log w).
Definition set_jvm_oom (b : bool) (w : world) : world :=
  mkWorld (w_heap w) (w_free w) (w_budget w) (w_clients w) b (w_pinned w)
    (w_grefs w) (w_exc w) (w_trace w) (w_log w).
Definition set_pinned (n : nat) (w : world) : world :=
  mkWorld (w_heap w) (w_free w) (w_budget w) (w_clients w) (w_jvm_oom w) n
    (w_grefs w) (w_exc w) (w_trace w) (w_log w).
Definition set_grefs (n : nat) (w : world) : world :=
  mkWorld (w_heap w) (w_free w) (w_budget w) (w_clients w) (w_jvm_oom w) (w_pinned w)
    n (w_exc w) (w_trace w) (w_log w).
Definition set_exc (x : option jthrowable) (w : world) : world :=
  mkWorld (w_heap w) (w_free w) (w_budget w) (w_clients w) (w_jvm_oom w) (w_pinned w)
    (w_grefs w) x (w_trace w) (w_log w).
Definition set_log (l : list string) (w : world) : world :=
  mkWorld (w_heap w) (w_free w) (w_budget w) (w_clients w) (w_jvm_oom w) (w_pinned w)
    (w_grefs w) (w_exc w) (w_trace w) l.

End World.

Arguments JNISession : clear implicits.
Arguments world : clear implicits.

(** ** The outcome monad *)

Inductive outcome {E : SyncEngine} (A : Type) :=
| Done (a : A) (w : world E)
| Raised (e : cxx_exc) (w : world E)
| Undefined (u : ub).

Arguments Done {E A} a w.
Arguments Raised {E A} e w.
Arguments Undefined {E A} u.

Definition M {E : SyncEngine} (A : Type) : Type := world E -> outcome A.

#[export] Instance M_ret {E : SyncEngine} : MRet M := fun A a w => Done a w.

#[export] Instance M_bind {E : SyncEngine} : MBind M := fun A B f m w =>
  match m w with
  | Done a w' => f a w'
  | Raised e w' => Raised e w'
  | Undefined u => Undefined u
  end.

Section Primitives.
Context `{E : SyncEngine}.

Definition modify (f : world E -> world E) : M unit := fun w => Done () (f w).

Definition throw {A} (e : cxx_exc) : M A := fun w => Raised e w.

Definition undefined {A} (u : ub) : M A := fun _ => Undefined u.

(** Run [cleanup] when [m] throws, then rethrow: what a [new]-expression
    does with its storage when the constructor throws. *)
Definition on_raise {A} (m : M A) (cleanup : M unit) : M A := fun w =>
  match m w with
  | Raised e w' =>
      match cleanup w' with
      | Done _ w'' => Raised e w''
      | Raised e' w'' => Raised e' w''
      | Undefined u => Undefined u
      end
  | o => o
  end.

(** [TR_ENTER(env)]: log the entered function when tracing is on. *)
Definition trace_entry (fn : string) (w : world E) : world E :=
  set_log (if w_trace w then w_log w ++ [fn] else w_log w) w.

Definition TR_ENTER (fn : string) : M unit := modify (trace_entry fn).

(** [ConvertException]: the Java exception that a caught C++ exception
    becomes. *)
Definition ConvertException (e : cxx_exc) : jthrowable :=
  match e with
  | BadAlloc => mk_jthrowable OutOfMemory "std::bad_alloc"
  | StdException what => mk_jthrowable FatalError what
  | OtherThrow => mk_jthrowable RuntimeError "Exception"
  end.

(** [try { body } CATCH_STD()]: [None] when an exception was caught and
    turned into a pending Java exception. *)
Definition CATCH_STD {A} (body : M A) : M (option A) := fun w =>
  match body w with
  | Done a w' => Done (Some a) w'
  | Raised e w' => Done None (set_exc (Some (ConvertException e)) w')
  | Undefined u => Undefined u
  end.

(** One allocation of the C++ heap: it throws [std::bad_alloc] beyond the
    budget. *)
Definition cxx_alloc : M unit := fun w =>
  match w_budget w with
  | O => Raised BadAlloc w
  | S n => Done () (set_budget n w)
  end.

(** [env->GetStringUTFChars(s, NULL)]: the modified UTF-8 bytes and their
    NUL terminator, pinned until released; [None] is the NULL the JVM
    returns, with an [OutOfMemoryError] pending, when it cannot allocate. *)
Definition GetStringUTFChars (s : jstring) : M (option (list Z)) := fun w =>
  match s with
  | None => Undefined UB_NullJString
  | Some u =>
      if w_jvm_oom w
      then Done None (set_exc (Some (mk_jthrowable JavaLangOutOfMemoryError "java.lang.OutOfMemoryError")) w)
      else Done (Some (mutf8 u ++ [0])) (set_pinned (S (w_pinned w)) w)
  end.

(** [env->ReleaseStringUTFChars(s, p)]. *)
Definition ReleaseStringUTFChars : M unit :=
  modify (fun w => set_pinned (pred (w_pinned w)) w).

(** [std::string x(p)] for a [const char* p]: copy up to the first NUL
    into a fresh allocation. *)
Definition std_string_of_cstr (p : option (list Z)) : M (list Z) :=
  match p with
  | None => undefined UB_NullCString
  | Some buf => cxx_alloc ;; mret (cstr_prefix buf)
  end.

(** [JStringAccessor acc(env, s)]: a null string gives a null
    [StringData]; otherwise a buffer is allocated and the code units are
    converted to UTF-8, an unpaired surrogate making it throw. *)
Definition JStringAccessor (s : jstring) : M (option (list Z)) :=
  match s with
  | None => mret None
  | Some u =>
      cxx_alloc ;;
      match utf8_of_utf16 u with
      | Some b => mret (Some b)
      | None => throw (StdException "Failure when converting to UTF-8")
      end
  end.

End Primitives.

(** ** Running computations *)

(** Unfold the monad's plumbing, leaving the primitives' bodies. *)
Ltac unfold_M := unfold mbind, M_bind, mret, M_ret, modify, throw, undefined in *; cbv beta iota in *.

Section Run.
Context `{E : SyncEngine}.

Lemma bind_Done {A B} (m : M A) (f : A -> M B) w a w' :
  m w = Done a w' -> (m ≫= f) w = f a w'.
Proof. intros H. unfold mbind, M_bind. now rewrite H. Qed.

Lemma bind_Raised {A B} (m : M A) (f : A -> M B) w e w' :
  m w = Raised e w' -> (m ≫= f) w = Raised e w'.
Proof. intros H. unfold mbind, M_bind. now rewrite H. Qed.

Lemma bind_Undefined {A B} (m : M A) (f : A -> M B) w u :
  m w = Undefined u -> (m ≫= f) w = Undefined u.
Proof. intros H. unfold mbind, M_bind. now rewrite H. Qed.

Lemma bind_Done_inv {A B} (m : M A) (f : A -> M B) w b w' :
  (m ≫= f) w = Done b w' -> exists a w1, m w = Done a w1 /\ f a w1 = Done b w'.
Proof. unfold mbind, M_bind. destruct (m w); intros H; [eauto|discriminate|discriminate]. Qed.

Lemma ret_run {A} (a : A) w : (mret a : M A) w = Done a w.
Proof. reflexivity. Qed.

Lemma CATCH_STD_Done {A} (m : M A) w a w' :
  m w = Done a w' -> CATCH_STD m w = Done (Some a) w'.
Proof. intros H. unfold CATCH_STD. now rewrite H. Qed.

Lemma CATCH_STD_Raised {A} (m : M A) w e w' :
  m w = Raised e w' -> CATCH_STD m w = Done None (set_exc (Some (ConvertException e)) w').
Proof. intros H. unfold CATCH_STD. now rewrite H. Qed.

Lemma CATCH_STD_Undefined {A} (m : M A) w u :
  m w = Undefined u -> CATCH_STD m w = Undefined u.
Proof. intros H. unfold CATCH_STD. now rewrite H. Qed.

(** [CATCH_STD] lets no C++ exception through. *)
Lemma CATCH_STD_not_Raised {A} (m : M A) w e w' : CATCH_STD m w <> Raised e w'.
Proof. unfold CATCH_STD. destruct (m w); discriminate. Qed.

(** The marshalling primitives on each of their paths. *)

Lemma JStringAccessor_null w : JStringAccessor None w = Done None w.
Proof. reflexivity. Qed.

Lemma JStringAccessor_ok u b w n :
  utf8_of_utf16 u = Some b -> w_budget w = S n ->
  JStringAccessor (Some u) w = Done (Some b) (set_budget n w).
Proof. intros Hu Hb. unfold JStringAccessor, cxx_alloc. unfold_M. rewrite Hb. now rewrite Hu. Qed.

Lemma JStringAccessor_bad u w n :
  utf8_of_utf16 u = None -> w_budget w = S n ->
  JStringAccessor (Some u) w =
    Raised (StdException "Failure when converting to UTF-8") (set_budget n w).
Proof. intros Hu Hb. unfold JStringAccessor, cxx_alloc. unfold_M. rewrite Hb. now rewrite Hu. Qed.

Lemma JStringAccessor_no_mem u w :
  w_budget w = O -> JStringAccessor (Some u) w = Raised BadAlloc w.
Proof. intros Hb. unfold JStringAccessor, cxx_alloc. unfold_M. now rewrite Hb. Qed.

(** What a successful conversion produced. *)
Lemma JStringAccessor_Done_inv u w b w' :
  JStringAccessor (Some u) w = Done (Some b) w' -> utf8_of_utf16 u = Some b.
Proof.
  unfold JStringAccessor, cxx_alloc. unfold_M. destruct (w_budget w); [discriminate|].
  destruct (utf8_of_utf16 u); simpl; [congruence|discriminate].
Qed.

End Run.

#[export] Hint Rewrite @ret_run @JStringAccessor_null : jni_rw.
