(* ===== verification/Session.v ===== *)
(** * The five native functions of io_realm_objectserver_session_Session.cpp

    Each function is written statement by statement in the order of the
    source, in the monad [M] of [Jni]: [TR_ENTER], the [try] block with
    [CATCH_STD()], the casts [SS]/[SC], the string marshalling, the
    [JNISession] wrapper's construction and destruction, and the call into
    the engine through [get_session()].  The [JNISession] members
    (objectserver_shared.hpp, not under src/) are modelled from the
    specification: the constructor opens an engine session on the client
    and the path and takes a global reference to the Java object; the
    destructor releases both.

    The lemmas run each function on each path ([*_run]: success, caught
    errors), and the theorems state the behaviour on every branch, the
    undefined ones included, for every engine. *)

From S2P Require Import Prelude MachineInt Utf Engine Jni.

Local Open Scope Z_scope.

Section Bridge.
Context `{E : SyncEngine} `{P : Platform}.

(** [SS(ptr)]: [reinterpret_cast<JNISession* >(ptr)]. *)
Definition SS (ptr : Z) : Z := ptr_of_jlong ptr.

(** [SC(ptr)]: [reinterpret_cast<sync::Client* >(ptr)]. *)
Definition SC (ptr : Z) : Z := ptr_of_jlong ptr.

(** [operator new]: an address from the free list, within the budget. *)
Definition operator_new : M Z := fun w =>
  match w_budget w, w_free w with
  | S n, a :: free' => Done a (set_free free' (set_budget n w))
  | _, _ => Raised BadAlloc w
  end.

(** [operator delete]: the address goes back on top of the free list. *)
Definition operator_delete (a : Z) : M unit :=
  modify (fun w => set_free (a :: w_free w) w).

(** Read the client at an address ([*sync_client]). *)
Definition deref_client (a : Z) : M client := fun w =>
  match w_clients w !! a with
  | Some c => Done c w
  | None => Undefined UB_DanglingClient
  end.

(** [session_wrapper->]: read the wrapper at an address. *)
Definition deref_session (a : Z) : M (JNISession E) := fun w =>
  if decide (a = 0) then Undefined UB_NullDeref
  else match w_heap w !! a with
       | Some js => Done js w
       | None => Undefined UB_DanglingSession
       end.

(** An engine call: a thrown exception propagates. *)
Definition engine {A} (r : cxx_exc + A) : M A :=
  match r with
  | inl e => throw e
  | inr a => mret a
  end.

(** The [JNISession] constructor run at address [a]. *)
Definition JNISession_ctor (a : Z) (sync_client : Z) (local_path : list Z) (obj : Z) : M unit :=
  c ← deref_client sync_client;
  s ← engine (session_open c local_path);
  modify (fun w => set_grefs (S (w_grefs w)) w) ;;
  modify (fun w => set_heap (<[a := mkJNISession s local_path obj]> (w_heap w)) w).

(** [new JNISession(...)]: allocate, construct, and give the storage back
    if the constructor throws. *)
Definition new_JNISession (sync_client : Z) (local_path : list Z) (obj : Z) : M Z :=
  a ← operator_new;
  on_raise (JNISession_ctor a sync_client local_path obj) (operator_delete a) ;;
  mret a.

(** [delete session]: nothing for a null pointer; otherwise the destructor
    releases the engine session and the global reference, and the storage
    returns to the allocator. *)
Definition delete_JNISession (a : Z) : M unit := fun w =>
  if decide (a = 0) then Done () w
  else match w_heap w !! a with
       | Some _ =>
           Done () (set_free (a :: w_free w)
                      (set_grefs (pred (w_grefs w)) (set_heap (delete a (w_heap w)) w)))
       | None => Undefined UB_BadDelete
       end.

(** [session_wrapper->get_session()->op(...)]: the engine updates the
    session the wrapper at [a] owns. *)
Definition session_call (a : Z) (op : session -> cxx_exc + session) : M unit :=
  js ← deref_session a;
  s' ← engine (op (js_session js));
  modify (fun w => set_heap (<[a := mkJNISession s' (js_local_path js) (js_java_obj js)]>
                               (w_heap w)) w).

(** Lines 50-52 and 67-69: [GetStringUTFChars], copy into a
    [std::string], [ReleaseStringUTFChars]. *)
Definition read_utf_chars (s : jstring) : M (list Z) :=
  tmp ← GetStringUTFChars s;
  str ← std_string_of_cstr tmp;
  ReleaseStringUTFChars ;;
  mret str.

(** The names [TR_ENTER] logs ([__FUNCTION__]). *)
Definition fn_create : string := "Java_io_realm_objectserver_session_Session_nativeCreateSession".
Definition fn_bind : string := "Java_io_realm_objectserver_session_Session_nativeBind".
Definition fn_unbind : string := "Java_io_realm_objectserver_session_Session_nativeUnbind".
Definition fn_refresh : string := "Java_io_realm_objectserver_session_Session_nativeRefresh".
Definition fn_notify : string :=
  "Java_io_realm_objectserver_session_Session_nativeNotifyCommitHappened".

(** Lines 41-58. *)
Definition nativeCreateSession (obj : Z) (clientPointer : Z) (localRealmPath : jstring) : M Z :=
  TR_ENTER fn_create ;;
  let sync_client := SC clientPointer in
  if decide (sync_client = 0) then mret 0
  else
    r ← CATCH_STD (
      local_path ← read_utf_chars localRealmPath;
      jni_session ← new_JNISession sync_client local_path obj;
      mret (jlong_of_ptr jni_session));
    mret (default 0 r).

(** Lines 60-77. *)
Definition nativeBind (sessionPointer : Z) (remoteUrl accessToken : jstring) : M unit :=
  TR_ENTER fn_bind ;;
  _ ← CATCH_STD (
    let session_wrapper := SS sessionPointer in
    access_token ← read_utf_chars accessToken;
    remote_url ← JStringAccessor remoteUrl;
    session_call session_wrapper (fun s => session_bind s remote_url access_token));
  mret ().

(** Lines 80-86. *)
Definition nativeUnbind (sessionPointer : Z) : M unit :=
  TR_ENTER fn_unbind ;;
  delete_JNISession (SS sessionPointer).

(** Lines 88-100. *)
Definition nativeRefresh (sessionPointer : Z) (accessToken : jstring) : M unit :=
  TR_ENTER fn_refresh ;;
  _ ← CATCH_STD (
    let session_wrapper := SS sessionPointer in
    access_token ← JStringAccessor accessToken;
    session_call session_wrapper (fun s => session_refresh s access_token));
  mret ().

(** Lines 102-111. *)
Definition nativeNotifyCommitHappened (sessionPointer : Z) (version : Z) : M unit :=
  TR_ENTER fn_notify ;;
  _ ← CATCH_STD (
    let session_wrapper := SS sessionPointer in
    session_call session_wrapper (fun s => session_notify s (u64_of_jlong version)));
  mret ().

End Bridge.

(** Unfold a native function down to the primitives' bodies, outermost
    definitions first. *)
Ltac unfold_bridge :=
  unfold nativeCreateSession, nativeBind, nativeUnbind, nativeRefresh, nativeNotifyCommitHappened,
    read_utf_chars, new_JNISession, JNISession_ctor, session_call, delete_JNISession,
    TR_ENTER, CATCH_STD, on_raise, GetStringUTFChars, std_string_of_cstr, ReleaseStringUTFChars,
    JStringAccessor, operator_new, operator_delete, deref_client, deref_session, engine, cxx_alloc;
  unfold_M; cbv zeta.

(** ** Each step on each of its paths *)

Section Steps.
Context `{E : SyncEngine} `{P : Platform}.

Lemma read_utf_chars_ok u w n :
  all_units u -> w_jvm_oom w = false -> w_budget w = S n ->
  read_utf_chars (Some u) w = Done (mutf8 u) (set_budget n w).
Proof.
  intros Hu Ho Hb. unfold read_utf_chars, GetStringUTFChars, std_string_of_cstr,
    ReleaseStringUTFChars, cxx_alloc. unfold_M. rewrite Ho. simpl. rewrite Hb.
  rewrite cstr_prefix_mutf8 by exact Hu. reflexivity.
Qed.

(** The copy into [std::string] throws while the JVM buffer is pinned:
    [ReleaseStringUTFChars] is skipped. *)
Lemma read_utf_chars_no_mem u w :
  w_jvm_oom w = false -> w_budget w = O ->
  read_utf_chars (Some u) w = Raised BadAlloc (set_pinned (S (w_pinned w)) w).
Proof.
  intros Ho Hb. unfold read_utf_chars, GetStringUTFChars, std_string_of_cstr, cxx_alloc.
  unfold_M. rewrite Ho. simpl. now rewrite Hb.
Qed.

Lemma read_utf_chars_jvm_oom u w :
  w_jvm_oom w = true -> read_utf_chars (Some u) w = Undefined UB_NullCString.
Proof.
  intros Ho. unfold read_utf_chars, GetStringUTFChars, std_string_of_cstr.
  unfold_M. now rewrite Ho.
Qed.

Lemma read_utf_chars_null w : read_utf_chars None w = Undefined UB_NullJString.
Proof. reflexivity. Qed.

Lemma session_call_ok a js op s' w :
  a <> 0 -> w_heap w !! a = Some js -> op (js_session js) = inr s' ->
  session_call a op w =
    Done () (set_heap (<[a := mkJNISession s' (js_local_path js) (js_java_obj js)]>
                        (w_heap w)) w).
Proof.
  intros Ha Hl Hop. unfold session_call, deref_session, engine. unfold_M.
  rewrite decide_False by exact Ha. rewrite Hl, Hop. reflexivity.
Qed.

Lemma session_call_throw a js op e w :
  a <> 0 -> w_heap w !! a = Some js -> op (js_session js) = inl e ->
  session_call a op w = Raised e w.
Proof.
  intros Ha Hl Hop. unfold session_call, deref_session, engine. unfold_M.
  rewrite decide_False by exact Ha. rewrite Hl, Hop. reflexivity.
Qed.

Lemma session_call_dead a op w :
  w_heap w !! a = None -> exists u, session_call a op w = Undefined u.
Proof.
  intros Hl. unfold session_call, deref_session. unfold_M.
  case_decide; [eauto|]. rewrite Hl. eauto.
Qed.

Lemma new_JNISession_ok c p obj w n a f cl s :
  w_budget w = S n -> w_free w = a :: f -> w_clients w !! c = Some cl ->
  session_open cl p = inr s ->
  new_JNISession c p obj w =
    Done a (set_heap (<[a := mkJNISession s p obj]> (w_heap w))
              (set_grefs (S (w_grefs w)) (set_free f (set_budget n w)))).
Proof.
  intros Hb Hf Hc Ho. unfold new_JNISession, operator_new, on_raise, JNISession_ctor,
    deref_client, engine. unfold_M. rewrite Hb, Hf. simpl. rewrite Hc, Ho. reflexivity.
Qed.

(** A throwing constructor gives the storage back: only the budget moved. *)
Lemma new_JNISession_throw c p obj w n a f cl e :
  w_budget w = S n -> w_free w = a :: f -> w_clients w !! c = Some cl ->
  session_open cl p = inl e ->
  new_JNISession c p obj w = Raised e (set_budget n w).
Proof.
  intros Hb Hf Hc Ho. unfold new_JNISession, operator_new, on_raise, operator_delete,
    JNISession_ctor, deref_client, engine. unfold_M. rewrite Hb, Hf. simpl. rewrite Hc, Ho.
  simpl. rewrite <- Hf. reflexivity.
Qed.

Lemma new_JNISession_no_mem c p obj w :
  (w_budget w = O \/ w_free w = []) -> new_JNISession c p obj w = Raised BadAlloc w.
Proof.
  intros H. unfold new_JNISession, operator_new. unfold_M.
  destruct H as [-> | ->]; [reflexivity|]. now destruct (w_budget w).
Qed.

End Steps.

(** ** Each native function on its successful path, to the exact world *)

Section Runs.
Context `{E : SyncEngine} `{P : Platform}.

Lemma nativeCreateSession_run obj cp u w n a f cl s :
  SC cp <> 0 -> w_clients w !! SC cp = Some cl -> all_units u ->
  w_jvm_oom w = false -> w_budget w = S (S n) -> w_free w = a :: f ->
  session_open cl (mutf8 u) = inr s ->
  nativeCreateSession obj cp (Some u) w =
    Done (jlong_of_ptr a)
      (set_heap (<[a := mkJNISession s (mutf8 u) obj]> (w_heap w))
         (set_grefs (S (w_grefs w)) (set_free f (set_budget n (trace_entry fn_create w))))).
Proof.
  intros Hsc Hc Hu Ho Hb Hf Hs. unfold nativeCreateSession.
  erewrite bind_Done by reflexivity. cbv zeta. rewrite decide_False by exact Hsc.
  erewrite bind_Done.
  2:{ apply CATCH_STD_Done.
      erewrite bind_Done by (eapply read_utf_chars_ok; eauto).
      erewrite bind_Done by (eapply new_JNISession_ok; simpl; eauto). reflexivity. }
  reflexivity.
Qed.

Lemma nativeBind_run h url tok w n js b s' :
  SS h <> 0 -> w_heap w !! SS h = Some js -> all_units tok ->
  w_jvm_oom w = false -> w_budget w = S (S n) -> utf8_of_utf16 url = Some b ->
  session_bind (js_session js) (Some b) (mutf8 tok) = inr s' ->
  nativeBind h (Some url) (Some tok) w =
    Done () (set_heap (<[SS h := mkJNISession s' (js_local_path js) (js_java_obj js)]>
                         (w_heap w)) (set_budget n (trace_entry fn_bind w))).
Proof.
  intros Hss Hl Ht Ho Hb Hu Hs. unfold nativeBind.
  erewrite bind_Done by reflexivity. cbv zeta.
  erewrite bind_Done.
  2:{ apply CATCH_STD_Done.
      erewrite bind_Done by (eapply read_utf_chars_ok; eauto).
      erewrite bind_Done by (eapply JStringAccessor_ok; simpl; eauto).
      eapply session_call_ok; simpl; eauto. }
  reflexivity.
Qed.

Lemma nativeUnbind_run h w js :
  SS h <> 0 -> w_heap w !! SS h = Some js ->
  nativeUnbind h w =
    Done () (set_free (SS h :: w_free w)
               (set_grefs (pred (w_grefs w))
                  (set_heap (delete (SS h) (w_heap w)) (trace_entry fn_unbind w)))).
Proof.
  intros Hss Hl. unfold nativeUnbind, TR_ENTER, delete_JNISession. unfold_M.
  rewrite decide_False by exact Hss. simpl. now rewrite Hl.
Qed.

Lemma nativeUnbind_null_run h w :
  SS h = 0 -> nativeUnbind h w = Done () (trace_entry fn_unbind w).
Proof.
  intros Hss. unfold nativeUnbind, TR_ENTER, delete_JNISession. unfold_M.
  now rewrite Hss.
Qed.

Lemma nativeRefresh_run h tok w n js b s' :
  SS h <> 0 -> w_heap w !! SS h = Some js -> w_budget w = S n ->
  utf8_of_utf16 tok = Some b ->
  session_refresh (js_session js) (Some b) = inr s' ->
  nativeRefresh h (Some tok) w =
    Done () (set_heap (<[SS h := mkJNISession s' (js_local_path js) (js_java_obj js)]>
                         (w_heap w)) (set_budget n (trace_entry fn_refresh w))).
Proof.
  intros Hss Hl Hb Hu Hs. unfold nativeRefresh.
  erewrite bind_Done by reflexivity. cbv zeta.
  erewrite bind_Done.
  2:{ apply CATCH_STD_Done.
      erewrite bind_Done by (eapply JStringAccessor_ok; simpl; eauto).
      eapply session_call_ok; simpl; eauto. }
  reflexivity.
Qed.

Lemma nativeNotifyCommitHappened_run h v w js s' :
  SS h <> 0 -> w_heap w !! SS h = Some js ->
  session_notify (js_session js) (u64_of_jlong v) = inr s' ->
  nativeNotifyCommitHappened h v w =
    Done () (set_heap (<[SS h := mkJNISession s' (js_local_path js) (js_java_obj js)]>
                         (w_heap w)) (trace_entry fn_notify w)).
Proof.
  intros Hss Hl Hs. unfold nativeNotifyCommitHappened.
  erewrite bind_Done by reflexivity. cbv zeta.
  erewrite bind_Done by (apply CATCH_STD_Done; eapply session_call_ok; simpl; eauto).
  reflexivity.
Qed.

(** The error paths under the same conditions: the exception is caught
    and left pending, the heap is untouched. *)

Lemma nativeCreateSession_rejected_run obj cp u w n a f cl e :
  SC cp <> 0 -> w_clients w !! SC cp = Some cl -> all_units u ->
  w_jvm_oom w = false -> w_budget w = S (S n) -> w_free w = a :: f ->
  session_open cl (mutf8 u) = inl e ->
  nativeCreateSession obj cp (Some u) w =
    Done 0 (set_exc (Some (ConvertException e)) (set_budget n (trace_entry fn_create w))).
Proof.
  intros Hsc Hc Hu Ho Hb Hf Hs. unfold nativeCreateSession.
  erewrite bind_Done by reflexivity. cbv zeta. rewrite decide_False by exact Hsc.
  erewrite bind_Done.
  2:{ apply CATCH_STD_Raised.
      erewrite bind_Done by (eapply read_utf_chars_ok; eauto).
      erewrite bind_Raised by (eapply new_JNISession_throw; simpl; eauto). reflexivity. }
  reflexivity.
Qed.

Lemma nativeBind_bad_url_run h url tok w n :
  all_units tok -> w_jvm_oom w = false -> w_budget w = S (S n) ->
  utf8_of_utf16 url = None ->
  nativeBind h (Some url) (Some tok) w =
    Done () (set_exc (Some (ConvertException (StdException "Failure when converting to UTF-8")))
               (set_budget n (trace_entry fn_bind w))).
Proof.
  intros Ht Ho Hb Hu. unfold nativeBind.
  erewrite bind_Done by reflexivity. cbv zeta.
  erewrite bind_Done.
  2:{ apply CATCH_STD_Raised.
      erewrite bind_Done by (eapply read_utf_chars_ok; eauto).
      erewrite bind_Raised by (eapply JStringAccessor_bad; simpl; eauto). reflexivity. }
  reflexivity.
Qed.

Lemma nativeBind_rejected_run h url tok w n js b e :
  SS h <> 0 -> w_heap w !! SS h = Some js -> all_units tok ->
  w_jvm_oom w = false -> w_budget w = S (S n) -> utf8_of_utf16 url = Some b ->
  session_bind (js_session js) (Some b) (mutf8 tok) = inl e ->
  nativeBind h (Some url) (Some tok) w =
    Done () (set_exc (Some (ConvertException e)) (set_budget n (trace_entry fn_bind w))).
Proof.
  intros Hss Hl Ht Ho Hb Hu Hs. unfold nativeBind.
  erewrite bind_Done by reflexivity. cbv zeta.
  erewrite bind_Done.
  2:{ apply CATCH_STD_Raised.
      erewrite bind_Done by (eapply read_utf_chars_ok; eauto).
      erewrite bind_Done by (eapply JStringAccessor_ok; simpl; eauto).
      eapply session_call_throw; simpl; eauto. }
  reflexivity.
Qed.

Lemma nativeRefresh_bad_token_run h tok w n :
  w_budget w = S n -> utf8_of_utf16 tok = None ->
  nativeRefresh h (Some tok) w =
    Done () (set_exc (Some (ConvertException (StdException "Failure when converting to UTF-8")))
               (set_budget n (trace_entry fn_refresh w))).
Proof.
  intros Hb Hu. unfold nativeRefresh.
  erewrite bind_Done by reflexivity. cbv zeta.
  erewrite bind_Done.
  2:{ apply CATCH_STD_Raised.
      erewrite bind_Raised by (eapply JStringAccessor_bad; simpl; eauto). reflexivity. }
  reflexivity.
Qed.

Lemma nativeRefresh_rejected_run h tok w n js b e :
  SS h <> 0 -> w_heap w !! SS h = Some js -> w_budget w = S n ->
  utf8_of_utf16 tok = Some b ->
  session_refresh (js_session js) (Some b) = inl e ->
  nativeRefresh h (Some tok) w =
    Done () (set_exc (Some (ConvertException e)) (set_budget n (trace_entry fn_refresh w))).
Proof.
  intros Hss Hl Hb Hu Hs. unfold nativeRefresh.
  erewrite bind_Done by reflexivity. cbv zeta.
  erewrite bind_Done.
  2:{ apply CATCH_STD_Raised.
      erewrite bind_Done by (eapply JStringAccessor_ok; simpl; eauto).
      eapply session_call_throw; simpl; eauto. }
  reflexivity.
Qed.

Lemma nativeNotifyCommitHappened_rejected_run h v w js e :
  SS h <> 0 -> w_heap w !! SS h = Some js ->
  session_notify (js_session js) (u64_of_jlong v) = inl e ->
  nativeNotifyCommitHappened h v w =
    Done () (set_exc (Some (ConvertException e)) (trace_entry fn_notify w)).
Proof.
  intros Hss Hl Hs. unfold nativeNotifyCommitHappened.
  erewrite bind_Done by reflexivity. cbv zeta.
  erewrite bind_Done by (apply CATCH_STD_Raised; eapply session_call_throw; simpl; eauto).
  reflexivity.
Qed.

End Runs.

(** ** The native functions *)

Section Natives.
Context `{E : SyncEngine} `{P : Platform}.

(** C5: With a live client, a path, memory and a successful engine open,
    nativeCreateSession stores a new JNISession holding the full modified-
    UTF-8 path at the first free address and returns that address as the
    handle, taking one global reference and leaving no UTF buffer pinned. *)
Theorem nativeCreateSession_ok obj cp u w n a f cl s :
  SC cp <> 0 -> w_clients w !! SC cp = Some cl -> all_units u ->
  w_jvm_oom w = false -> w_budget w = S (S n) -> w_free w = a :: f ->
  session_open cl (mutf8 u) = inr s ->
  exists w', nativeCreateSession obj cp (Some u) w = Done (jlong_of_ptr a) w' /\
    w_heap w' = <[a := mkJNISession s (mutf8 u) obj]> (w_heap w) /\
    w_free w' = f /\ w_budget w' = n /\ w_grefs w' = S (w_grefs w) /\
    w_pinned w' = w_pinned w /\ w_exc w' = w_exc w.
Proof.
  intros. erewrite nativeCreateSession_run by eauto.
  eexists. split; [reflexivity|]. simpl. auto 10.
Qed.

(** C6: On a live handle, nativeBind passes the URL as standard UTF-8 and
    the token as modified UTF-8 to the engine's bind and stores the updated
    session in the wrapper, with buffers released and no exception pending.
    *)
Theorem nativeBind_ok h url tok w n js b s' :
  SS h <> 0 -> w_heap w !! SS h = Some js -> all_units tok ->
  w_jvm_oom w = false -> w_budget w = S (S n) -> utf8_of_utf16 url = Some b ->
  session_bind (js_session js) (Some b) (mutf8 tok) = inr s' ->
  exists w', nativeBind h (Some url) (Some tok) w = Done () w' /\
    w_heap w' = <[SS h := mkJNISession s' (js_local_path js) (js_java_obj js)]> (w_heap w) /\
    w_free w' = w_free w /\ w_budget w' = n /\ w_grefs w' = w_grefs w /\
    w_pinned w' = w_pinned w /\ w_exc w' = w_exc w.
Proof.
  intros. erewrite nativeBind_run by eauto.
  eexists. split; [reflexivity|]. simpl. auto 10.
Qed.

(** C16: The engine refuses the bind: its exception becomes the pending Java
    exception and the wrapper is unchanged. *)
Theorem nativeBind_engine_error h url tok w n js b e :
  SS h <> 0 -> w_heap w !! SS h = Some js -> all_units tok ->
  w_jvm_oom w = false -> w_budget w = S (S n) -> utf8_of_utf16 url = Some b ->
  session_bind (js_session js) (Some b) (mutf8 tok) = inl e ->
  exists w', nativeBind h (Some url) (Some tok) w = Done () w' /\
    w_heap w' = w_heap w /\ w_pinned w' = w_pinned w /\
    w_exc w' = Some (ConvertException e).
Proof.
  intros. erewrite nativeBind_rejected_run by eauto.
  eexists. split; [reflexivity|]. simpl. auto.
Qed.

(** C17: A URL that is not well-formed UTF-16 is reported as a Java exception
    before the handle is used: even a dangling handle does no harm. *)
Theorem nativeBind_bad_url h url tok w n :
  all_units tok -> w_jvm_oom w = false -> w_budget w = S (S n) ->
  ~ utf16_valid url ->
  exists w', nativeBind h (Some url) (Some tok) w = Done () w' /\
    w_heap w' = w_heap w /\ w_pinned w' = w_pinned w /\
    w_exc w' = Some (mk_jthrowable FatalError "Failure when converting to UTF-8").
Proof.
  intros Ht Ho Hb Hv. erewrite nativeBind_bad_url_run by eauto using utf8_of_utf16_None.
  eexists. split; [reflexivity|]. simpl. auto.
Qed.

(** C7: On a live handle, nativeUnbind removes the wrapper from the heap,
    releases its global reference and returns its address to the allocator,
    whatever state the session is in. *)
Theorem nativeUnbind_ok h w js :
  SS h <> 0 -> w_heap w !! SS h = Some js ->
  exists w', nativeUnbind h w = Done () w' /\
    w_heap w' = delete (SS h) (w_heap w) /\ w_free w' = SS h :: w_free w /\
    w_grefs w' = pred (w_grefs w) /\ w_pinned w' = w_pinned w /\ w_exc w' = w_exc w.
Proof.
  intros. erewrite nativeUnbind_run by eauto.
  eexists. split; [reflexivity|]. simpl. auto 10.
Qed.

(** C27: nativeUnbind on the handle 0 (the result of a failed create)
    deletes the null pointer, which changes nothing. *)
Theorem nativeUnbind_null h w :
  SS h = 0 ->
  exists w', nativeUnbind h w = Done () w' /\
    w_heap w' = w_heap w /\ w_free w' = w_free w /\ w_grefs w' = w_grefs w /\
    w_pinned w' = w_pinned w /\ w_exc w' = w_exc w.
Proof.
  intros. rewrite nativeUnbind_null_run by auto.
  eexists. split; [reflexivity|]. simpl. auto 10.
Qed.

(** C8: On a live handle, nativeRefresh passes the token as standard UTF-8
    to the engine's refresh and stores the updated session, without
    rebinding. *)
Theorem nativeRefresh_ok h tok w n js b s' :
  SS h <> 0 -> w_heap w !! SS h = Some js -> w_budget w = S n ->
  utf8_of_utf16 tok = Some b ->
  session_refresh (js_session js) (Some b) = inr s' ->
  exists w', nativeRefresh h (Some tok) w = Done () w' /\
    w_heap w' = <[SS h := mkJNISession s' (js_local_path js) (js_java_obj js)]> (w_heap w) /\
    w_free w' = w_free w /\ w_grefs w' = w_grefs w /\
    w_pinned w' = w_pinned w /\ w_exc w' = w_exc w.
Proof.
  intros. erewrite nativeRefresh_run by eauto.
  eexists. split; [reflexivity|]. simpl. auto 10.
Qed.

(** C26: A null access token given to nativeRefresh reaches the engine as a
    null StringData, with no undefined behaviour in the bridge. *)
Theorem nativeRefresh_null_token h w js s' :
  SS h <> 0 -> w_heap w !! SS h = Some js ->
  session_refresh (js_session js) None = inr s' ->
  exists w', nativeRefresh h None w = Done () w' /\
    w_heap w' = <[SS h := mkJNISession s' (js_local_path js) (js_java_obj js)]> (w_heap w) /\
    w_exc w' = w_exc w.
Proof.
  intros Hss Hl Hs. unfold nativeRefresh.
  erewrite bind_Done by reflexivity. cbv zeta.
  erewrite bind_Done.
  2:{ apply CATCH_STD_Done.
      erewrite bind_Done by (rewrite JStringAccessor_null; reflexivity).
      eapply session_call_ok; simpl; eauto. }
  eexists. split; [reflexivity|]. simpl. auto.
Qed.

(** C18: A token that is not well-formed UTF-16 is reported as a Java
    exception before the handle is used: even a dangling handle does no
    harm. *)
Theorem nativeRefresh_bad_token h tok w n :
  w_budget w = S n -> ~ utf16_valid tok ->
  exists w', nativeRefresh h (Some tok) w = Done () w' /\
    w_heap w' = w_heap w /\ w_pinned w' = w_pinned w /\
    w_exc w' = Some (mk_jthrowable FatalError "Failure when converting to UTF-8").
Proof.
  intros Hb Hv. erewrite nativeRefresh_bad_token_run by eauto using utf8_of_utf16_None.
  eexists. split; [reflexivity|]. simpl. auto.
Qed.

(** C9: On a live handle, nativeNotifyCommitHappened passes the version
    converted to uint64 to the engine and stores the updated session; the
    bridge does not check that the session was bound. *)
Theorem nativeNotifyCommitHappened_ok h v w js s' :
  SS h <> 0 -> w_heap w !! SS h = Some js ->
  session_notify (js_session js) (u64_of_jlong v) = inr s' ->
  exists w', nativeNotifyCommitHappened h v w = Done () w' /\
    w_heap w' = <[SS h := mkJNISession s' (js_local_path js) (js_java_obj js)]> (w_heap w) /\
    w_free w' = w_free w /\ w_grefs w' = w_grefs w /\
    w_pinned w' = w_pinned w /\ w_exc w' = w_exc w.
Proof.
  intros. erewrite nativeNotifyCommitHappened_run by eauto.
  eexists. split; [reflexivity|]. simpl. auto 10.
Qed.

(** C28: A handle whose wrapper has been deleted and not reallocated makes
    nativeNotifyCommitHappened undefined behaviour. *)
Theorem nativeNotifyCommitHappened_dead h v w :
  w_heap w !! SS h = None -> exists u, nativeNotifyCommitHappened h v w = Undefined u.
Proof.
  intros Hl. unfold nativeNotifyCommitHappened.
  erewrite bind_Done by reflexivity. cbv zeta.
  destruct (session_call_dead (SS h) (fun s => session_notify s (u64_of_jlong v))
              (trace_entry fn_notify w))
    as [u Hu]; [exact Hl|].
  exists u. erewrite bind_Undefined; [reflexivity|]. now apply CATCH_STD_Undefined.
Qed.

(** C19: A null client pointer makes nativeCreateSession return 0 with no
    exception pending and nothing allocated, even when the path is null. *)
Theorem nativeCreateSession_null_client obj cp p w :
  SC cp = 0 -> nativeCreateSession obj cp p w =
    Done 0 (trace_entry fn_create w).
Proof.
  intros Hsc. unfold nativeCreateSession.
  erewrite bind_Done by reflexivity. cbv zeta. now rewrite decide_True by exact Hsc.
Qed.

(** C24: Only a null client pointer is detected (line 46): any other address
    that holds no live client is dereferenced by the constructor. *)
Theorem nativeCreateSession_dangling_client obj cp u w n :
  SC cp <> 0 -> w_clients w !! SC cp = None -> all_units u ->
  w_jvm_oom w = false -> w_budget w = S (S n) -> w_free w <> [] ->
  nativeCreateSession obj cp (Some u) w = Undefined UB_DanglingClient.
Proof.
  intros Hsc Hc Hu Ho Hb Hf. unfold nativeCreateSession.
  erewrite bind_Done by reflexivity. cbv zeta. rewrite decide_False by exact Hsc.
  apply bind_Undefined, CATCH_STD_Undefined.
  erewrite bind_Done by (eapply read_utf_chars_ok; eauto).
  apply bind_Undefined. unfold new_JNISession, operator_new, on_raise, JNISession_ctor,
    deref_client. unfold_M. simpl. destruct (w_free w) as [|a f]; [congruence|].
  simpl. now rewrite Hc.
Qed.

(** C23: The JVM returns NULL from [GetStringUTFChars] when it is out of
    memory; line 51 builds a [std::string] from it unchecked. *)
Theorem nativeCreateSession_jvm_oom obj cp u w :
  SC cp <> 0 -> w_jvm_oom w = true ->
  nativeCreateSession obj cp (Some u) w = Undefined UB_NullCString.
Proof.
  intros Hsc Ho. unfold nativeCreateSession.
  erewrite bind_Done by reflexivity. cbv zeta. rewrite decide_False by exact Hsc.
  apply bind_Undefined, CATCH_STD_Undefined, bind_Undefined, read_utf_chars_jvm_oom.
  exact Ho.
Qed.

(** C21: When the copy of the path into [std::string] throws, the exception
    skips [ReleaseStringUTFChars]: the JVM buffer stays pinned. *)
Theorem nativeCreateSession_bad_alloc_leaks obj cp u w :
  SC cp <> 0 -> w_jvm_oom w = false -> w_budget w = O ->
  exists w', nativeCreateSession obj cp (Some u) w = Done 0 w' /\
    w_pinned w' = S (w_pinned w) /\ w_heap w' = w_heap w /\
    w_exc w' = Some (ConvertException BadAlloc).
Proof.
  intros Hsc Ho Hb. unfold nativeCreateSession.
  erewrite bind_Done by reflexivity. cbv zeta. rewrite decide_False by exact Hsc.
  erewrite bind_Done.
  2:{ apply CATCH_STD_Raised. apply bind_Raised, read_utf_chars_no_mem; assumption. }
  eexists. split; [reflexivity|]. simpl. auto.
Qed.

(** C22: The same leak on the token of [nativeBind] (lines 67-69). *)
Theorem nativeBind_bad_alloc_leaks h url tok w :
  w_jvm_oom w = false -> w_budget w = O ->
  exists w', nativeBind h url (Some tok) w = Done () w' /\
    w_pinned w' = S (w_pinned w) /\ w_heap w' = w_heap w /\
    w_exc w' = Some (ConvertException BadAlloc).
Proof.
  intros Ho Hb. unfold nativeBind.
  erewrite bind_Done by reflexivity. cbv zeta.
  erewrite bind_Done.
  2:{ apply CATCH_STD_Raised. apply bind_Raised, read_utf_chars_no_mem; assumption. }
  eexists. split; [reflexivity|]. simpl. auto.
Qed.

(** C25: A null access token is given to [GetStringUTFChars] unchecked. *)
Theorem nativeBind_null_token h url w :
  nativeBind h url None w = Undefined UB_NullJString.
Proof.
  unfold nativeBind. erewrite bind_Done by reflexivity. cbv zeta.
  apply bind_Undefined, CATCH_STD_Undefined, bind_Undefined, read_utf_chars_null.
Qed.

(** C29: Lines 50-52 and the [JStringAccessor] of line 71 hand the engine the
    same bytes exactly when the string has no NUL unit and no surrogate. *)
Theorem marshalling_agree u w n :
  all_units u -> w_jvm_oom w = false -> w_budget w = S n ->
  (exists b, read_utf_chars (Some u) w = Done b (set_budget n w) /\
             JStringAccessor (Some u) w = Done (Some b) (set_budget n w))
  <-> Forall (fun c => c <> 0 /\ is_surrogate c = false) u.
Proof.
  intros Hu Ho Hb. rewrite (read_utf_chars_ok u w n Hu Ho Hb).
  rewrite <- (utf8_of_utf16_eq_mutf8 u Hu).
  destruct (utf8_of_utf16 u) as [b|] eqn:Hc.
  - rewrite (JStringAccessor_ok u b w n Hc Hb). split.
    + intros (b' & E1 & E2). injection E1 as <-. injection E2 as <-. reflexivity.
    + intros E'. injection E' as <-. eauto.
  - rewrite (JStringAccessor_bad u w n Hc Hb). split; [|discriminate].
    intros (b' & _ & E2). discriminate.
Qed.

(** C30: Each way the file reads a Java string hands the engine between one
    and three bytes per UTF-16 code unit. *)
Theorem marshalled_length_bounds u w n :
  all_units u -> w_jvm_oom w = false -> w_budget w = S n ->
  (exists b, read_utf_chars (Some u) w = Done b (set_budget n w) /\
             (length u <= length b <= 3 * length u)%nat) /\
  (forall b w', JStringAccessor (Some u) w = Done (Some b) w' ->
                (length u <= length b <= 3 * length u)%nat).
Proof.
  intros Hu Ho Hb. split.
  - exists (mutf8 u). split; [now apply read_utf_chars_ok|apply mutf8_length].
  - intros b w' H. exact (utf8_of_utf16_length u b Hu (JStringAccessor_Done_inv u w b w' H)).
Qed.

Lemma catch_ret_not_Raised {A B} (m : M A) (k : option A -> B) w e w' :
  (CATCH_STD m ≫= fun r => mret (k r)) w <> Raised e w'.
Proof. unfold CATCH_STD. unfold_M. destruct (m w); discriminate. Qed.

(** C1: Every C++ exception stops at the boundary: no native function lets
    one escape to the JVM. *)
Theorem natives_catch_all obj cp p h url tok v w e w' :
  nativeCreateSession obj cp p w <> Raised e w' /\
  nativeBind h url tok w <> Raised e w' /\
  nativeUnbind h w <> Raised e w' /\
  nativeRefresh h tok w <> Raised e w' /\
  nativeNotifyCommitHappened h v w <> Raised e w'.
Proof.
  unfold nativeCreateSession, nativeBind, nativeUnbind, nativeRefresh,
    nativeNotifyCommitHappened.
  repeat split; erewrite bind_Done by reflexivity; cbv zeta;
    try apply catch_ret_not_Raised.
  - case_decide; [discriminate|apply catch_ret_not_Raised].
  - unfold delete_JNISession. case_decide; [discriminate|].
    destruct (_ !! _); discriminate.
Qed.

(** C33: Line 109 hands the [jlong] version to the engine's [uint64_t]
    version type unchecked.  On every engine, a notify with a negative
    version on a live handle behaves exactly as a notify of version
    + 2^64, on both branches (the engine accepts it, or throws and the
    exception is converted), and that version is at least 2^63: above
    every version a non-negative [jlong] can give. *)
Theorem nativeNotifyCommitHappened_negative_version h v w js :
  SS h <> 0 -> w_heap w !! SS h = Some js -> - 2 ^ 63 <= v < 0 ->
  nativeNotifyCommitHappened h v w =
    match session_notify (js_session js) (v + 2 ^ 64) with
    | inr s' => Done () (set_heap (<[SS h := mkJNISession s' (js_local_path js) (js_java_obj js)]>
                                    (w_heap w)) (trace_entry fn_notify w))
    | inl e => Done () (set_exc (Some (ConvertException e)) (trace_entry fn_notify w))
    end /\ 2 ^ 63 <= v + 2 ^ 64.
Proof.
  intros Hss Hl Hv.
  assert (Hb : - 2 ^ 64 <= v < 0 /\ 2 ^ 63 <= v + 2 ^ 64)
    by (change (2 ^ 63) with 9223372036854775808 in *; change (2 ^ 64) with 18446744073709551616; lia).
  split; [|apply Hb]. rewrite <- u64_of_jlong_neg by apply Hb.
  destruct (session_notify _ (u64_of_jlong v)) eqn:Hs.
  - now apply (nativeNotifyCommitHappened_rejected_run _ _ _ js).
  - now apply (nativeNotifyCommitHappened_run _ _ _ js).
Qed.

End Natives.

(** ** Witnesses, on the reference engine and a 64-bit platform *)

#[local] Existing Instance ref_engine.
#[local] Existing Instance platform64.

(** A client at 0x40, one live wrapper at 0x1000 for the path "/a",
    two free addresses, room for ten allocations. *)
Definition demo_session : JNISession ref_engine :=
  mkJNISession (mk_ref_session [47; 97] None [] 0) [47; 97] 7.

Definition demo_world : world ref_engine :=
  mkWorld {[ 0x1000 := demo_session ]} [0x2000; 0x3000] 10 {[ 0x40 := tt ]}
    false 0 1 None true [].

(** "r:/x", "tok" *)
Definition demo_url : list Z := [114; 58; 47; 120].
Definition demo_token : list Z := [116; 111; 107].

Lemma nativeCreateSession_ok_witness :
  exists w', nativeCreateSession 7 0x40 (Some [47; 98]) demo_world = Done 0x2000 w' /\
    w_heap w' = <[0x2000 := mkJNISession (mk_ref_session [47; 98] None [] 0) [47; 98] 7]>
                  (w_heap demo_world) /\
    w_free w' = [0x3000] /\ w_budget w' = 8%nat /\ w_grefs w' = 2%nat /\
    w_pinned w' = 0%nat /\ w_exc w' = None.
Proof.
  use_theorem (nativeCreateSession_ok 7 0x40 [47; 98] demo_world 8 0x2000 [0x3000] tt
           (mk_ref_session [47; 98] None [] 0)).
Defined.

Lemma nativeBind_ok_witness :
  exists w', nativeBind 0x1000 (Some demo_url) (Some demo_token) demo_world = Done () w' /\
    w_heap w' = <[0x1000 := mkJNISession (mk_ref_session [47; 97] (Some demo_url) demo_token 0)
                              [47; 97] 7]> (w_heap demo_world) /\
    w_free w' = w_free demo_world /\ w_budget w' = 8%nat /\ w_grefs w' = 1%nat /\
    w_pinned w' = 0%nat /\ w_exc w' = None.
Proof.
  use_theorem (nativeBind_ok 0x1000 demo_url demo_token demo_world 8 demo_session demo_url
           (mk_ref_session [47; 97] (Some demo_url) demo_token 0)).
Defined.

Lemma nativeBind_engine_error_witness :
  exists w', nativeBind 0x1000 (Some []) (Some demo_token) demo_world = Done () w' /\
    w_heap w' = w_heap demo_world /\ w_pinned w' = 0%nat /\
    w_exc w' = Some (ConvertException (StdException "Bad URL")).
Proof.
  use_theorem (nativeBind_engine_error 0x1000 [] demo_token demo_world 8 demo_session []
                 (StdException "Bad URL")).
Defined.

(** A lone high surrogate in the URL. *)
Lemma nativeBind_bad_url_witness :
  exists w', nativeBind 0xdead (Some [0xD800]) (Some demo_token) demo_world = Done () w' /\
    w_heap w' = w_heap demo_world /\ w_pinned w' = 0%nat /\
    w_exc w' = Some (mk_jthrowable FatalError "Failure when converting to UTF-8").
Proof.
  use_theorem (nativeBind_bad_url 0xdead [0xD800] demo_token demo_world 8).
Defined.

Lemma nativeUnbind_ok_witness :
  exists w', nativeUnbind 0x1000 demo_world = Done () w' /\
    w_heap w' = ∅ /\ w_free w' = [0x1000; 0x2000; 0x3000] /\
    w_grefs w' = 0%nat /\ w_pinned w' = 0%nat /\ w_exc w' = None.
Proof. use_theorem (nativeUnbind_ok 0x1000 demo_world demo_session). Defined.

Lemma nativeUnbind_null_witness :
  exists w', nativeUnbind 0 demo_world = Done () w' /\
    w_heap w' = w_heap demo_world /\ w_free w' = [0x2000; 0x3000] /\
    w_grefs w' = 1%nat /\ w_pinned w' = 0%nat /\ w_exc w' = None.
Proof. use_theorem (nativeUnbind_null 0 demo_world). Defined.

Lemma nativeRefresh_ok_witness :
  exists w', nativeRefresh 0x1000 (Some demo_token) demo_world = Done () w' /\
    w_heap w' = <[0x1000 := mkJNISession (mk_ref_session [47; 97] None demo_token 0) [47; 97] 7]>
                  (w_heap demo_world) /\
    w_free w' = w_free demo_world /\ w_grefs w' = 1%nat /\ w_pinned w' = 0%nat /\ w_exc w' = None.
Proof.
  use_theorem (nativeRefresh_ok 0x1000 demo_token demo_world 9 demo_session demo_token
                 (mk_ref_session [47; 97] None demo_token 0)).
Defined.

Lemma nativeRefresh_null_token_witness :
  exists w', nativeRefresh 0x1000 None demo_world = Done () w' /\
    w_heap w' = <[0x1000 := demo_session]> (w_heap demo_world) /\ w_exc w' = None.
Proof.
  use_theorem (nativeRefresh_null_token 0x1000 demo_world demo_session (js_session demo_session)).
Defined.

Lemma nativeRefresh_bad_token_witness :
  exists w', nativeRefresh 0xdead (Some [0xDE00; 0x41]) demo_world = Done () w' /\
    w_heap w' = w_heap demo_world /\ w_pinned w' = 0%nat /\
    w_exc w' = Some (mk_jthrowable FatalError "Failure when converting to UTF-8").
Proof.
  use_theorem (nativeRefresh_bad_token 0xdead [0xDE00; 0x41] demo_world 9).
Defined.

Lemma marshalled_length_bounds_witness :
  (exists b, read_utf_chars (Some [0; 0xD83D; 0xDE00]) demo_world = Done b (set_budget 9 demo_world) /\
             (3 <= length b <= 9)%nat) /\
  (forall b w', JStringAccessor (Some [0; 0xD83D; 0xDE00]) demo_world = Done (Some b) w' ->
                (3 <= length b <= 9)%nat).
Proof. use_theorem (marshalled_length_bounds [0; 0xD83D; 0xDE00] demo_world 9). Defined.

Lemma marshalling_agree_witness :
  (exists b, read_utf_chars (Some demo_token) demo_world = Done b (set_budget 9 demo_world) /\
             JStringAccessor (Some demo_token) demo_world =
               Done (Some b) (set_budget 9 demo_world))
  <-> Forall (fun c => c <> 0 /\ is_surrogate c = false) demo_token.
Proof. use_theorem (marshalling_agree demo_token demo_world 9). Defined.

Lemma nativeNotifyCommitHappened_ok_witness :
  exists w', nativeNotifyCommitHappened 0x1000 (-1) demo_world = Done () w' /\
    w_heap w' = <[0x1000 := mkJNISession (mk_ref_session [47; 97] None [] (2 ^ 64 - 1))
                              [47; 97] 7]> (w_heap demo_world) /\
    w_free w' = w_free demo_world /\ w_grefs w' = 1%nat /\ w_pinned w' = 0%nat /\
    w_exc w' = None.
Proof.
  use_theorem (nativeNotifyCommitHappened_ok 0x1000 (-1) demo_world demo_session
                 (mk_ref_session [47; 97] None [] (2 ^ 64 - 1))).
Defined.

Lemma nativeNotifyCommitHappened_dead_witness :
  exists u, nativeNotifyCommitHappened 0x2000 5 demo_world = Undefined u.
Proof. use_theorem (nativeNotifyCommitHappened_dead 0x2000 5 demo_world). Defined.

Lemma nativeCreateSession_null_client_witness :
  nativeCreateSession 7 0 None demo_world =
    Done 0 (trace_entry fn_create demo_world).
Proof. use_theorem (nativeCreateSession_null_client 7 0 None demo_world). Defined.

Lemma nativeCreateSession_dangling_client_witness :
  nativeCreateSession 7 0x50 (Some [47; 98]) demo_world = Undefined UB_DanglingClient.
Proof. use_theorem (nativeCreateSession_dangling_client 7 0x50 [47; 98] demo_world 8). Defined.

Lemma nativeCreateSession_jvm_oom_witness :
  nativeCreateSession 7 0x40 (Some [47; 98]) (set_jvm_oom true demo_world) =
    Undefined UB_NullCString.
Proof. use_theorem (nativeCreateSession_jvm_oom 7 0x40 [47; 98] (set_jvm_oom true demo_world)). Defined.

Lemma nativeCreateSession_bad_alloc_leaks_witness :
  exists w', nativeCreateSession 7 0x40 (Some [47; 98]) (set_budget 0 demo_world) = Done 0 w' /\
    w_pinned w' = 1%nat /\ w_heap w' = w_heap demo_world /\
    w_exc w' = Some (mk_jthrowable OutOfMemory "std::bad_alloc").
Proof.
  use_theorem (nativeCreateSession_bad_alloc_leaks 7 0x40 [47; 98] (set_budget 0 demo_world)).
Defined.

Lemma nativeBind_bad_alloc_leaks_witness :
  exists w', nativeBind 0x1000 (Some demo_url) (Some demo_token) (set_budget 0 demo_world)
               = Done () w' /\
    w_pinned w' = 1%nat /\ w_heap w' = w_heap demo_world /\
    w_exc w' = Some (mk_jthrowable OutOfMemory "std::bad_alloc").
Proof.
  use_theorem (nativeBind_bad_alloc_leaks 0x1000 (Some demo_url) demo_token
                 (set_budget 0 demo_world)).
Defined.

Lemma nativeNotifyCommitHappened_negative_version_witness :
  nativeNotifyCommitHappened 0x1000 (-1) demo_world =
    Done () (set_heap (<[0x1000 := mkJNISession (mk_ref_session [47; 97] None [] (2 ^ 64 - 1))
                                    [47; 97] 7]> (w_heap demo_world)) (trace_entry fn_notify demo_world)) /\
  2 ^ 63 <= -1 + 2 ^ 64.
Proof. use_theorem (nativeNotifyCommitHappened_negative_version 0x1000 (-1) demo_world demo_session). Defined.
