(* ===== verification/Lifecycle.v ===== *)
(** * Sequences of native calls, and what stays true along them

    Java drives the bridge by a sequence of native calls ([call]).
    [run_call] runs one of them; [reachable] is the set of worlds a
    sequence of calls can produce from a start world, each call ending
    normally (possibly with a Java exception pending).

    The invariant [world_wf] ties the native heap, the allocator and the
    JVM's global references together: the free addresses are distinct,
    non-null, in the address range and hold no wrapper; every wrapper
    sits at a non-null address of the platform; and there is exactly one
    global reference per live wrapper.  It is proved compositionally:
    [preserves m] says that computation [m] keeps the invariant whether
    it returns or throws, and each primitive of the bridge is shown to
    preserve it once.

    The section [Handles] shows what create returns (a Java [long] that is
    0 or names the new wrapper), that a reused address gives back the
    stale handle, that a whole session (create, bind, notify, unbind)
    leaves the world's resources as they were, and that unbinding every
    live handle once releases every wrapper and global reference. *)

From S2P Require Import Prelude MachineInt Utf Engine Jni Session.

Local Open Scope Z_scope.

(** A call from Java into the bridge, with its arguments. *)
Inductive call :=
| CallCreate (obj clientPointer : Z) (localRealmPath : jstring)
| CallBind (sessionPointer : Z) (remoteUrl accessToken : jstring)
| CallUnbind (sessionPointer : Z)
| CallRefresh (sessionPointer : Z) (accessToken : jstring)
| CallNotify (sessionPointer version : Z).

Section Calls.
Context `{E : SyncEngine} `{P : Platform}.

(** The value Java receives: the [jlong] of [nativeCreateSession],
    nothing for the [void] functions. *)
Definition run_call (c : call) : M (option Z) :=
  match c with
  | CallCreate obj cp p => r ← nativeCreateSession obj cp p; mret (Some r)
  | CallBind h u t => nativeBind h u t ;; mret None
  | CallUnbind h => nativeUnbind h ;; mret None
  | CallRefresh h t => nativeRefresh h t ;; mret None
  | CallNotify h v => nativeNotifyCommitHappened h v ;; mret None
  end.

(** Run calls in order; stop at the first undefined behaviour. *)
Fixpoint run_calls (cs : list call) : M (list (option Z)) :=
  match cs with
  | [] => mret []
  | c :: cs' => r ← run_call c; rs ← run_calls cs'; mret (r :: rs)
  end.

(** Worlds reachable from [w0] by calls that end normally. *)
Inductive reachable (w0 : world E) : world E -> Prop :=
| reach_init : reachable w0 w0
| reach_step w c r w' : reachable w0 w -> run_call c w = Done r w' -> reachable w0 w'.

(** ** The invariant *)

Definition heap_wf (h : gmap Z (JNISession E)) (free : list Z) (grefs : nat) : Prop :=
  NoDup free /\
  Forall (fun a => a <> 0 /\ is_ptr a = true /\ a ∉ dom h) free /\
  map_Forall (fun a _ => a <> 0 /\ is_ptr a = true) h /\
  grefs = size h.

#[export] Instance heap_wf_dec h free g : Decision (heap_wf h free g).
Proof. unfold heap_wf. apply _. Defined.

Definition world_wf (w : world E) : Prop := heap_wf (w_heap w) (w_free w) (w_grefs w).

(** [m] keeps the invariant on the worlds it returns or throws with. *)
Definition preserves {A} (m : M A) : Prop :=
  forall w, world_wf w ->
  match m w with
  | Done _ w' | Raised _ w' => world_wf w'
  | Undefined _ => True
  end.

(** ** The invariant under the three heap updates of the bridge *)

Lemma heap_wf_update h free g k js js' :
  h !! k = Some js -> heap_wf h free g -> heap_wf (<[k := js']> h) free g.
Proof.
  intros Hk (Hnd & Hfree & Hlive & Hg). apply elem_of_dom_2 in Hk as Hkd.
  split; [exact Hnd|]. split; [|split].
  - eapply Forall_impl; [exact Hfree|]. intros a (? & ? & Ha).
    rewrite dom_insert_L. set_solver.
  - apply map_Forall_insert_2; [exact (Hlive k js Hk)|exact Hlive].
  - rewrite map_size_insert_Some; eauto.
Qed.

Lemma heap_wf_alloc h a f g js :
  heap_wf h (a :: f) g -> heap_wf (<[a := js]> h) f (S g).
Proof.
  intros (Hnd & Hfree & Hlive & Hg). apply NoDup_cons in Hnd as [Hnin Hnd].
  apply Forall_cons in Hfree as [(Ha0 & Hap & Had) Hfree].
  split; [exact Hnd|]. split; [|split].
  - apply Forall_forall. intros b Hb.
    destruct (proj1 (Forall_forall _ _) Hfree b Hb) as (? & ? & ?).
    rewrite dom_insert_L. repeat split; auto.
    assert (b <> a) by (intros ->; contradiction). set_solver.
  - apply map_Forall_insert_2; auto.
  - rewrite map_size_insert_None by now apply not_elem_of_dom. lia.
Qed.

Lemma heap_wf_release h a f g js :
  h !! a = Some js -> heap_wf h f g -> heap_wf (delete a h) (a :: f) (pred g).
Proof.
  intros Ha (Hnd & Hfree & Hlive & Hg). destruct (Hlive a js Ha) as [Ha0 Hap].
  apply elem_of_dom_2 in Ha as Had.
  split; [|split; [|split]].
  - apply NoDup_cons. split; [|exact Hnd]. intros Hin.
    destruct (proj1 (Forall_forall _ _) Hfree a Hin) as (_ & _ & ?). contradiction.
  - constructor; [rewrite dom_delete_L; repeat split; auto; set_solver|].
    eapply Forall_impl; [exact Hfree|]. intros b (? & ? & ?).
    rewrite dom_delete_L. set_solver.
  - now apply map_Forall_delete.
  - rewrite map_size_delete_Some by eauto. lia.
Qed.

(** ** Keeping the invariant, step by step *)

(** [m] leaves the heap, the free list and the global references alone. *)
Definition frames {A} (m : M A) : Prop :=
  forall w,
  match m w with
  | Done _ w' | Raised _ w' =>
      w_heap w' = w_heap w /\ w_free w' = w_free w /\ w_grefs w' = w_grefs w
  | Undefined _ => True
  end.

Lemma frames_preserves {A} (m : M A) : frames m -> preserves m.
Proof.
  intros Hm w Hw. specialize (Hm w). unfold world_wf in *.
  destruct (m w) as [? w'|? w'|]; auto; destruct Hm as (-> & -> & ->); exact Hw.
Qed.

Lemma frames_ret {A} (a : A) : frames (mret a).
Proof. intros w. simpl. auto. Qed.

Lemma frames_bind {A B} (m : M A) (f : A -> M B) :
  frames m -> (forall a, frames (f a)) -> frames (m ≫= f).
Proof.
  intros Hm Hf w. specialize (Hm w). unfold mbind, M_bind.
  destruct (m w) as [a w'|e w'|]; auto. specialize (Hf a w').
  destruct (f a w'); auto; destruct Hm as (<- & <- & <-); exact Hf.
Qed.

Lemma preserves_ret {A} (a : A) : preserves (mret a).
Proof. intros w Hw. exact Hw. Qed.

Lemma preserves_bind {A B} (m : M A) (f : A -> M B) :
  preserves m -> (forall a, preserves (f a)) -> preserves (m ≫= f).
Proof.
  intros Hm Hf w Hw. specialize (Hm w Hw). unfold mbind, M_bind.
  destruct (m w); auto. now apply Hf.
Qed.

Lemma preserves_CATCH_STD {A} (m : M A) : preserves m -> preserves (CATCH_STD m).
Proof. intros Hm w Hw. specialize (Hm w Hw). unfold CATCH_STD. now destruct (m w). Qed.

Lemma frames_TR_ENTER fn : frames (TR_ENTER fn).
Proof. intros w. simpl. auto. Qed.

Lemma frames_read_utf_chars s : frames (read_utf_chars s).
Proof.
  intros w. unfold read_utf_chars, GetStringUTFChars, std_string_of_cstr,
    ReleaseStringUTFChars, cxx_alloc. unfold_M.
  destruct s; [|exact I]. destruct (w_jvm_oom w); simpl; [exact I|].
  destruct (w_budget w); simpl; auto.
Qed.

Lemma frames_JStringAccessor s : frames (JStringAccessor s).
Proof.
  intros w. unfold JStringAccessor, cxx_alloc. unfold_M.
  destruct s; [|simpl; auto]. destruct (w_budget w); simpl; [auto|].
  destruct (utf8_of_utf16 _); simpl; auto.
Qed.

Lemma preserves_session_call a op : preserves (session_call a op).
Proof.
  intros w Hw. unfold session_call, deref_session, engine. unfold_M.
  case_decide; [exact I|]. destruct (w_heap w !! a) as [js|] eqn:Hl; [|exact I].
  destruct (op (js_session js)); simpl; [exact Hw|]. eapply heap_wf_update; eauto.
Qed.

Lemma preserves_new_JNISession c p obj : preserves (new_JNISession c p obj).
Proof.
  intros w Hw. unfold new_JNISession, operator_new, operator_delete, on_raise,
    JNISession_ctor, deref_client, engine. unfold_M.
  destruct (w_budget w) as [|n]; [exact Hw|]. destruct (w_free w) as [|a f] eqn:Hf; [exact Hw|].
  simpl. destruct (w_clients w !! c) as [cl|]; [|exact I].
  destruct (session_open cl p); simpl; unfold world_wf in *; simpl; rewrite <- ?Hf; [exact Hw|].
  apply heap_wf_alloc. now rewrite <- Hf.
Qed.

Lemma preserves_delete_JNISession a : preserves (delete_JNISession a).
Proof.
  intros w Hw. unfold delete_JNISession.
  case_decide; [exact Hw|]. destruct (w_heap w !! a) as [js|] eqn:Hl; [|exact I].
  eapply heap_wf_release; eauto.
Qed.

End Calls.

#[export] Hint Resolve frames_ret frames_TR_ENTER frames_read_utf_chars frames_JStringAccessor
  preserves_ret preserves_session_call preserves_new_JNISession preserves_delete_JNISession
  : jni.

(** Decompose a computation into the steps above. *)
Ltac preserve :=
  repeat match goal with
  | |- preserves (mbind _ _) => apply preserves_bind; [|intros ?]
  | |- preserves (CATCH_STD _) => apply preserves_CATCH_STD
  | |- preserves (if decide _ then _ else _) => case_decide
  | |- preserves _ => first [ solve [auto with jni] | apply frames_preserves; solve [auto with jni] ]
  end.

Section Invariant.
Context `{E : SyncEngine} `{P : Platform}.

Lemma run_call_preserves c : preserves (run_call c).
Proof.
  destruct c; simpl; unfold nativeCreateSession, nativeBind, nativeUnbind, nativeRefresh,
    nativeNotifyCommitHappened; cbv zeta; preserve.
Qed.

(** C3: Every world reachable from a well-formed world by native calls is
    well formed: free addresses are distinct, non-null and unused, live
    wrappers sit at non-null addresses, and each live wrapper holds
    exactly one global reference. *)
Theorem reachable_wf w0 w : world_wf w0 -> reachable w0 w -> world_wf w.
Proof.
  intros H0 Hr. induction Hr as [|w c r w' _ IH Hrun]; [exact H0|].
  pose proof (run_call_preserves c w IH) as Hc. now rewrite Hrun in Hc.
Qed.

End Invariant.

(** ** Calls that respect the protocol are defined *)

Section Safety.
Context `{E : SyncEngine} `{P : Platform}.

(** What the Java side must guarantee for one call: strings that are read
    are not null, the JVM can allocate, a client pointer is null or names
    a live client, and a session handle names a live wrapper (or is 0,
    for [nativeUnbind]). *)
Definition call_ok (w : world E) (c : call) : Prop :=
  match c with
  | CallCreate _ cp p =>
      is_Some p /\ w_jvm_oom w = false /\ (SC cp = 0 \/ is_Some (w_clients w !! SC cp))
  | CallBind h _ tok => is_Some tok /\ w_jvm_oom w = false /\ is_Some (w_heap w !! SS h)
  | CallUnbind h => SS h = 0 \/ is_Some (w_heap w !! SS h)
  | CallRefresh h _ => is_Some (w_heap w !! SS h)
  | CallNotify h _ => is_Some (w_heap w !! SS h)
  end.

#[global] Instance call_ok_dec w c : Decision (call_ok w c).
Proof. destruct c; simpl; apply _. Defined.

Lemma live_nonnull w a : world_wf w -> is_Some (w_heap w !! a) -> a <> 0.
Proof. intros (_ & _ & Hlive & _) [js Hl]. exact (proj1 (Hlive a js Hl)). Qed.

(** A call that respects the protocol ends normally. *)
Lemma call_ok_defined w c :
  world_wf w -> call_ok w c -> exists r w', run_call c w = Done r w'.
Proof.
  intros Hw Hc. destruct c as [obj cp p|h url tok|h|h tok|h v]; simpl in Hc; simpl.
  - destruct Hc as ([pp ->] & Ho & Hcl). unfold_bridge. simpl.
    repeat (case_match; simplify_eq/=); destruct Hcl as [?|[? ?]]; eauto; congruence.
  - destruct Hc as ([t ->] & Ho & Hl). pose proof (live_nonnull w _ Hw Hl) as H0.
    destruct Hl as [js Hl]. unfold_bridge. simpl.
    repeat (case_match; simplify_eq/=); eauto; congruence.
  - unfold_bridge. simpl. destruct Hc as [H0|Hl].
    + rewrite decide_True by exact H0. eauto.
    + pose proof (live_nonnull w _ Hw Hl) as H0. destruct Hl as [js Hl].
      rewrite decide_False by exact H0. simpl. rewrite Hl. eauto.
  - pose proof (live_nonnull w _ Hw Hc) as H0. destruct Hc as [js Hl].
    unfold_bridge. simpl. repeat (case_match; simplify_eq/=); eauto; congruence.
  - pose proof (live_nonnull w _ Hw Hc) as H0. destruct Hc as [js Hl].
    unfold_bridge. simpl. repeat (case_match; simplify_eq/=); eauto; congruence.
Qed.

(** A sequence of calls respects the protocol when each call does, in
    whatever world the calls before it produced. *)
Fixpoint protocol_ok (cs : list call) (w : world E) : Prop :=
  match cs with
  | [] => True
  | c :: cs' => call_ok w c /\ forall r w', run_call c w = Done r w' -> protocol_ok cs' w'
  end.

(** C4: A Java caller that respects the protocol never drives the bridge into
    undefined behaviour: from a well-formed world, the whole sequence of
    calls runs to its end. *)
Theorem protocol_defined cs w :
  world_wf w -> protocol_ok cs w -> exists rs w', run_calls cs w = Done rs w'.
Proof.
  revert w. induction cs as [|c cs IH]; intros w Hw Hp; simpl; [eauto|].
  destruct Hp as [Hc Hk]. destruct (call_ok_defined w c Hw Hc) as (r & w1 & Hr).
  pose proof (run_call_preserves c w Hw) as Hw1. rewrite Hr in Hw1.
  destruct (IH w1 Hw1 (Hk r w1 Hr)) as (rs & w2 & Hrs).
  unfold mbind, M_bind. rewrite Hr, Hrs. eauto.
Qed.

End Safety.

(** ** Handles and release *)

Section Handles.
Context `{E : SyncEngine} `{P : Platform}.

(** [SS] undoes [reinterpret_cast<jlong>] on a pointer of the platform. *)
Lemma SS_of_ptr a : is_ptr a = true -> SS (jlong_of_ptr a) = a.
Proof. apply ptr_of_jlong_of_ptr. Qed.

(** A live wrapper's address is a non-null pointer of the platform. *)
Lemma wf_live w a js :
  world_wf w -> w_heap w !! a = Some js -> a <> 0 /\ is_ptr a = true.
Proof. intros (_ & _ & Hlive & _) Hl. exact (Hlive a js Hl). Qed.

Lemma wf_free w a f :
  world_wf w -> w_free w = a :: f -> a <> 0 /\ is_ptr a = true /\ w_heap w !! a = None.
Proof.
  intros (_ & Hfree & _) Hf. rewrite Hf in Hfree. apply Forall_cons in Hfree as [(? & ? & Hd) _].
  split; [assumption|]. split; [assumption|]. now apply not_elem_of_dom.
Qed.

(** What a successful [new JNISession] did: it took the head of the free
    list and put a wrapper there. *)
Lemma new_JNISession_Done_inv c p obj w a w' :
  new_JNISession c p obj w = Done a w' ->
  exists f, w_free w = a :: f /\ is_Some (w_heap w' !! a).
Proof.
  unfold new_JNISession, operator_new, operator_delete, on_raise,
    JNISession_ctor, deref_client, engine. unfold_M.
  destruct (w_budget w) as [|n]; [discriminate|]. destruct (w_free w) as [|b f]; [discriminate|].
  simpl. destruct (w_clients w !! c) as [cl|]; [|discriminate].
  destruct (session_open cl p); simpl; [discriminate|]. intros H. injection H as <- <-.
  exists f. split; [reflexivity|]. simpl. rewrite lookup_insert_eq. eauto.
Qed.

(** What a create that ends normally returned: 0, or the cast of the
    address it took from the head of the free list, now live. *)
Lemma nativeCreateSession_Done_inv obj cp p w r w' :
  nativeCreateSession obj cp p w = Done r w' ->
  r = 0 \/ exists a f, r = jlong_of_ptr a /\ w_free w = a :: f /\ is_Some (w_heap w' !! a).
Proof.
  intros H. unfold nativeCreateSession in H.
  apply bind_Done_inv in H as ([] & w0 & H0 & H). injection H0 as <-. cbv zeta in H.
  case_decide; [injection H as <- <-; now left|].
  apply bind_Done_inv in H as (o & w1 & Hc & H). injection H as <- <-.
  destruct o as [x|]; [|now left]. simpl. right.
  unfold CATCH_STD in Hc.
  match type of Hc with context [match ?m with _ => _ end] => destruct m eqn:Hb end;
    try discriminate.
  injection Hc as <- <-.
  apply bind_Done_inv in Hb as (lp & w2 & Hr & Hb). apply bind_Done_inv in Hb as (ad & w3 & Hn & Hb).
  injection Hb as <- <-.
  pose proof (frames_read_utf_chars p (trace_entry fn_create w)) as Hf. rewrite Hr in Hf.
  destruct Hf as (_ & Hfr & _). destruct (new_JNISession_Done_inv _ _ _ _ _ _ Hn) as (f & Hfa & Hl).
  simpl in Hfr. rewrite Hfr in Hfa. eauto.
Qed.

(** C15: The value [nativeCreateSession] returns to Java is a Java [long], and
    it is either 0 or the handle of the wrapper it just placed at a
    non-null address that held none before; [SS] of that handle is the
    wrapper's address. *)
Theorem nativeCreateSession_handle obj cp p w r w' :
  world_wf w -> nativeCreateSession obj cp p w = Done r w' ->
  is_jlong r = true /\
  (r = 0 \/ exists a, r = jlong_of_ptr a /\ r <> 0 /\ SS r = a /\
                      w_heap w !! a = None /\ is_Some (w_heap w' !! a)).
Proof.
  intros Hw H. destruct (nativeCreateSession_Done_inv _ _ _ _ _ _ H) as [->|(ad & f & -> & Hfa & Hl)];
    [split; [reflexivity|now left]|].
  destruct (wf_free w ad f Hw Hfa) as (Ha0 & Hap & Han).
  split; [apply jlong_of_ptr_is_jlong|]. right. exists ad.
  split; [reflexivity|]. split; [now rewrite jlong_of_ptr_eq_0|].
  split; [now apply SS_of_ptr|]. split; [exact Han|exact Hl].
Qed.

(** The calls that unbind every live wrapper once, by its handle. *)
Definition unbind_all (w : world E) : list call :=
  map (fun a => CallUnbind (jlong_of_ptr a)) (elements (dom (w_heap w))).

Lemma run_calls_cons c cs w r w1 :
  run_call c w = Done r w1 ->
  run_calls (c :: cs) w = (rs ← run_calls cs; mret (r :: rs)) w1.
Proof. intros H. simpl. now erewrite bind_Done by exact H. Qed.

(** Unbinding distinct live addresses, one after the other, deletes
    exactly them. *)
Lemma run_unbinds l w :
  world_wf w -> NoDup l -> (forall a, a ∈ l -> is_Some (w_heap w !! a)) ->
  exists rs w', run_calls (map (fun a => CallUnbind (jlong_of_ptr a)) l) w = Done rs w' /\
    world_wf w' /\ forall b, w_heap w' !! b = if decide (b ∈ l) then None else w_heap w !! b.
Proof.
  revert w. induction l as [|a l IH]; intros w Hw Hnd Hl.
  - exists [], w. split; [reflexivity|]. split; [exact Hw|]. intros b.
    rewrite decide_False by set_solver. reflexivity.
  - apply NoDup_cons in Hnd as [Hnin Hnd].
    destruct (Hl a ltac:(set_solver)) as [js Hla]. destruct (wf_live w a js Hw Hla) as [Ha0 Hap].
    assert (Hr : run_call (CallUnbind (jlong_of_ptr a)) w =
      Done None (set_free (a :: w_free w) (set_grefs (pred (w_grefs w))
                   (set_heap (delete a (w_heap w)) (trace_entry fn_unbind w))))).
    { simpl. erewrite bind_Done; [reflexivity|].
      erewrite nativeUnbind_run; rewrite ?SS_of_ptr by exact Hap; [reflexivity|exact Ha0|exact Hla]. }
    pose proof (run_call_preserves (CallUnbind (jlong_of_ptr a)) w Hw) as Hw1. rewrite Hr in Hw1.
    destruct (IH _ Hw1 Hnd) as (rs & w' & Hrs & Hw' & Hh).
    { intros b Hb. simpl. rewrite lookup_delete_ne by set_solver. apply Hl. set_solver. }
    exists (None :: rs), w'. split; [|split; [exact Hw'|]].
    + cbn [map]. rewrite (run_calls_cons _ _ _ _ _ Hr). now erewrite bind_Done by exact Hrs.
    + intros b. rewrite Hh. simpl. destruct (decide (b = a)) as [->|Hne].
      * destruct (decide (a ∈ a :: l)) as [_|Hn]; [|set_solver].
        destruct (decide (a ∈ l)); [reflexivity|]. apply lookup_delete_eq.
      * rewrite lookup_delete_ne by congruence.
        destruct (decide (b ∈ l)), (decide (b ∈ a :: l)); set_solver.
Qed.

(** C14: Every session can be released: from any well-formed world, unbinding
    each live wrapper once by its handle runs to its end and leaves no
    wrapper on the native heap and no global reference held. *)
Theorem unbind_all_releases w :
  world_wf w ->
  exists rs w', run_calls (unbind_all w) w = Done rs w' /\
    w_heap w' = ∅ /\ w_grefs w' = 0%nat /\ world_wf w'.
Proof.
  intros Hw. destruct (run_unbinds (elements (dom (w_heap w))) w Hw) as (rs & w' & Hr & Hw' & Hh).
  - apply NoDup_elements.
  - intros a Ha. apply elem_of_dom. now apply elem_of_elements in Ha.
  - assert (He : w_heap w' = ∅).
    { apply map_eq. intros b. rewrite Hh, lookup_empty. case_decide as Hb; [reflexivity|].
      apply not_elem_of_dom. intros Hd. apply Hb. now apply elem_of_elements. }
    exists rs, w'. split; [exact Hr|]. split; [exact He|]. split; [|exact Hw'].
    destruct Hw' as (_ & _ & _ & Hg). now rewrite Hg, He, map_size_empty.
Qed.


(** C12: A whole session leaves nothing behind.  On every engine, from
    every well-formed world where the calls can succeed: create, bind
    with the returned handle, notify and unbind run to their end,
    create returns the handle of the first free address, and afterwards
    the heap, the free list, the global references, the pinned buffers
    and the pending exception are as they were. *)
Theorem session_lifecycle obj cp u url tok v w n a f cl b s s1 s2 :
  world_wf w -> SC cp <> 0 -> w_clients w !! SC cp = Some cl ->
  all_units u -> all_units tok -> w_jvm_oom w = false ->
  w_budget w = S (S (S (S n))) -> w_free w = a :: f -> utf8_of_utf16 url = Some b ->
  session_open cl (mutf8 u) = inr s -> session_bind s (Some b) (mutf8 tok) = inr s1 ->
  session_notify s1 (u64_of_jlong v) = inr s2 ->
  exists w', run_calls [CallCreate obj cp (Some u); CallBind (jlong_of_ptr a) (Some url) (Some tok);
                        CallNotify (jlong_of_ptr a) v; CallUnbind (jlong_of_ptr a)] w =
             Done [Some (jlong_of_ptr a); None; None; None] w' /\
    w_heap w' = w_heap w /\ w_free w' = w_free w /\ w_grefs w' = w_grefs w /\
    w_pinned w' = w_pinned w /\ w_exc w' = w_exc w.
Proof.
  intros Hw Hsc Hc Hu Ht Ho Hb Hf Hurl Hs Hs1 Hs2.
  destruct (wf_free w a f Hw Hf) as (Ha0 & Hap & Han). pose proof (SS_of_ptr a Hap) as Hss.
  cbn [run_calls run_call]. unfold_M.
  erewrite nativeCreateSession_run by eauto.
  erewrite nativeBind_run by (cbn; rewrite ?Hss, ?lookup_insert_eq; eauto).
  erewrite nativeNotifyCommitHappened_run by (cbn; rewrite ?Hss, ?lookup_insert_eq; eauto).
  erewrite nativeUnbind_run by (cbn; rewrite ?Hss, ?lookup_insert_eq; eauto).
  eexists. split; [reflexivity|]. cbn. rewrite Hss, !delete_insert_eq, delete_id by exact Han.
  rewrite Hf. auto.
Qed.

End Handles.

(** ** Witnesses, on the reference engine *)

#[local] Existing Instance ref_engine.
#[local] Existing Instance platform64.

(** create(client, "/tmp/a.realm"); bind(H, "realm://example/a",
    "token123"); notifyCommitHappened(H, 5); unbind(H), where H is the
    handle the first call returns in [demo_world]. *)
Definition spec_scenario_calls : list call :=
  [CallCreate 9 0x40 (Some (units_of_string "/tmp/a.realm"));
   CallBind 0x2000 (Some (units_of_string "realm://example/a"))
     (Some (units_of_string "token123"));
   CallNotify 0x2000 5;
   CallUnbind 0x2000].

(** Check one call of a concrete protocol and step to the world it
    produces. *)
Ltac protocol_step :=
  cbn [protocol_ok]; split;
  [ apply (bool_decide_unpack _); vm_compute; reflexivity
  | let r := fresh "r" in let w := fresh "w" in let H := fresh "H" in
    intros r w H; vm_compute in H; injection H as <- <- ].

Lemma demo_world_wf : world_wf demo_world.
Proof. apply (bool_decide_unpack _). vm_compute. reflexivity. Qed.

Lemma protocol_defined_witness :
  world_wf demo_world /\ protocol_ok spec_scenario_calls demo_world /\
  exists rs w', run_calls spec_scenario_calls demo_world = Done rs w'.
Proof.
  assert (Hp : protocol_ok spec_scenario_calls demo_world).
  { unfold spec_scenario_calls. do 4 protocol_step. exact I. }
  split; [exact demo_world_wf|]. split; [exact Hp|].
  exact (protocol_defined spec_scenario_calls demo_world demo_world_wf Hp).
Defined.

(** The world after one [nativeCreateSession] on [demo_world]. *)
Definition demo_after_create : world ref_engine :=
  Eval vm_compute in
  match run_call (CallCreate 9 0x40 (Some [47; 98])) demo_world with
  | Done _ w => w
  | _ => demo_world
  end.

Lemma reachable_wf_witness :
  reachable demo_world demo_after_create /\ size (w_heap demo_after_create) = 2%nat /\
  world_wf demo_after_create.
Proof.
  assert (Hr : reachable demo_world demo_after_create).
  { apply (reach_step demo_world demo_world (CallCreate 9 0x40 (Some [47; 98])) (Some 0x2000));
      [apply reach_init|vm_compute; reflexivity]. }
  split; [exact Hr|]. split; [vm_compute; reflexivity|].
  exact (reachable_wf _ _ demo_world_wf Hr).
Defined.

Lemma nativeCreateSession_handle_witness :
  world_wf demo_world /\
  nativeCreateSession 9 0x40 (Some [47; 98]) demo_world = Done 0x2000 demo_after_create /\
  is_jlong 0x2000 = true /\
  (0x2000 = 0 \/ exists a, 0x2000 = jlong_of_ptr a /\ 0x2000 <> 0 /\ SS 0x2000 = a /\
                           w_heap demo_world !! a = None /\ is_Some (w_heap demo_after_create !! a)).
Proof.
  assert (H : nativeCreateSession 9 0x40 (Some [47; 98]) demo_world = Done 0x2000 demo_after_create)
    by (vm_compute; reflexivity).
  split; [exact demo_world_wf|]. split; [exact H|].
  exact (nativeCreateSession_handle _ _ _ _ _ _ demo_world_wf H).
Defined.

Lemma unbind_all_releases_witness :
  world_wf demo_after_create /\
  exists rs w', run_calls (unbind_all demo_after_create) demo_after_create = Done rs w' /\
    w_heap w' = ∅ /\ w_grefs w' = 0%nat /\ world_wf w'.
Proof.
  assert (Hw : world_wf demo_after_create) by (apply (bool_decide_unpack _); vm_compute; reflexivity).
  split; [exact Hw|]. exact (unbind_all_releases _ Hw).
Defined.

(** A closed fact about the demo worlds: an equation, a disequation or a
    decidable proposition, checked by evaluation. *)
Ltac concrete_fact :=
  first [ vm_compute; reflexivity
        | let Hx := fresh in intros Hx; vm_compute in Hx; discriminate
        | apply (bool_decide_unpack _); vm_compute; reflexivity ].

Lemma session_lifecycle_witness :
  exists w', run_calls [CallCreate 9 0x40 (Some [47; 98]);
                        CallBind (jlong_of_ptr 0x2000) (Some demo_url) (Some demo_token);
                        CallNotify (jlong_of_ptr 0x2000) 5; CallUnbind (jlong_of_ptr 0x2000)] demo_world =
             Done [Some (jlong_of_ptr 0x2000); None; None; None] w' /\
    w_heap w' = w_heap demo_world /\ w_free w' = w_free demo_world /\
    w_grefs w' = w_grefs demo_world /\ w_pinned w' = w_pinned demo_world /\ w_exc w' = w_exc demo_world.
Proof.
  apply (session_lifecycle 9 0x40 [47; 98] demo_url demo_token 5 demo_world 6 0x2000 [0x3000] tt
           demo_url (mk_ref_session [47; 98] None [] 0)
           (mk_ref_session [47; 98] (Some demo_url) demo_token 0)
           (mk_ref_session [47; 98] (Some demo_url) demo_token 5));
    [exact demo_world_wf|..]; concrete_fact.
Defined.



