(* ===== verification/HandleTable.v ===== *)
(** * The specification's handle table, and the bridge's refinement of it

    Section 4.1 of the specification describes the bridge abstractly: a
    table from opaque handles to session wrappers, five operations on it,
    and a per-handle state machine
    [created -> bound -> (refreshing <-> bound) -> unbound].  [spec_step]
    is that contract as a step relation on tables ([table]), observed by
    Java as a return value and whether an exception is pending
    ([observation]).  The handle a successful create returns is any fresh
    non-null one: the contract does not fix it.

    The bridge keeps no table: its "table" is the native heap read
    through [SS].  [abs_heap] is the abstraction, one handle per live
    wrapper (the handle [reinterpret_cast<jlong>] produced for it), and
    [abs_ok] adds what is true between two Java calls: the heap invariant
    of [Lifecycle], no exception pending, no UTF buffer pinned.
    [java_call] is a native call as Java sees it: the JVM rethrows a
    pending exception in Java when the native method returns, so the
    next call starts with none. *)

From S2P Require Import Prelude MachineInt Utf Engine Jni Session Lifecycle.

Local Open Scope Z_scope.

(** The state of a handle in the specification's state machine; an
    unbound handle has left the table. *)
Inductive phase := Created | Bound.

#[export] Instance phase_eq_dec : EqDecision phase.
Proof. solve_decision. Defined.

Section Spec.
Context `{E : SyncEngine}.

(** A Session Wrapper of the specification: the engine session, the local
    path, the back-reference to the Java object, and its phase. *)
Record entry := mkEntry {
  e_session : session;
  e_path : list Z;
  e_obj : Z;
  e_phase : phase
}.

(** What Java observes of a call: the returned [jlong] (for create) and
    whether a Java exception is pending when it returns. *)
Definition observation : Type := option Z * bool.

(** The one text conversion of the specification: UTF-16 to UTF-8,
    failing on malformed text. *)
Definition marshal (u : list Z) : option (list Z) := utf8_of_utf16 u.

(** The client registry, an external collaborator: a client handle names
    a client, or is invalid. *)
Variable registry : Z -> option client.

Inductive spec_step (T : gmap Z entry) : call -> observation -> gmap Z entry -> Prop :=
| spec_create_invalid obj cl p :
    registry cl = None ->
    spec_step T (CallCreate obj cl (Some p)) (Some 0, false) T
| spec_create_ok obj cl p c b s h :
    registry cl = Some c -> marshal p = Some b -> session_open c b = inr s ->
    h <> 0 -> T !! h = None ->
    spec_step T (CallCreate obj cl (Some p)) (Some h, false)
      (<[h := mkEntry s b obj Created]> T)
| spec_create_error obj cl p c :
    registry cl = Some c ->
    (marshal p = None \/ exists b e, marshal p = Some b /\ session_open c b = inl e) ->
    spec_step T (CallCreate obj cl (Some p)) (Some 0, true) T
| spec_bind_ok h url tok en u t s :
    T !! h = Some en -> e_phase en = Created ->
    marshal url = Some u -> marshal tok = Some t ->
    session_bind (e_session en) (Some u) t = inr s ->
    spec_step T (CallBind h (Some url) (Some tok)) (None, false)
      (<[h := mkEntry s (e_path en) (e_obj en) Bound]> T)
| spec_bind_error h url tok en :
    T !! h = Some en -> e_phase en = Created ->
    (marshal url = None \/ marshal tok = None \/
     exists u t e, marshal url = Some u /\ marshal tok = Some t /\
                   session_bind (e_session en) (Some u) t = inl e) ->
    spec_step T (CallBind h (Some url) (Some tok)) (None, true) T
| spec_unbind h en :
    T !! h = Some en ->
    spec_step T (CallUnbind h) (None, false) (delete h T)
| spec_refresh_ok h tok en t s :
    T !! h = Some en -> e_phase en = Bound -> marshal tok = Some t ->
    session_refresh (e_session en) (Some t) = inr s ->
    spec_step T (CallRefresh h (Some tok)) (None, false)
      (<[h := mkEntry s (e_path en) (e_obj en) Bound]> T)
| spec_refresh_error h tok en :
    T !! h = Some en -> e_phase en = Bound ->
    (marshal tok = None \/
     exists t e, marshal tok = Some t /\ session_refresh (e_session en) (Some t) = inl e) ->
    spec_step T (CallRefresh h (Some tok)) (None, true) T
| spec_notify_ok h v en s :
    T !! h = Some en -> e_phase en = Bound -> 0 <= v ->
    session_notify (e_session en) v = inr s ->
    spec_step T (CallNotify h v) (None, false)
      (<[h := mkEntry s (e_path en) (e_obj en) Bound]> T)
| spec_notify_error h v en e :
    T !! h = Some en -> e_phase en = Bound -> 0 <= v ->
    session_notify (e_session en) v = inl e ->
    spec_step T (CallNotify h v) (None, true) T.

(** A sequence of steps of the specification, with what Java observes. *)
Inductive spec_run : gmap Z entry -> list call -> list observation -> gmap Z entry -> Prop :=
| spec_run_nil T : spec_run T [] [] T
| spec_run_cons T c r T1 cs rs T2 :
    spec_step T c r T1 -> spec_run T1 cs rs T2 -> spec_run T (c :: cs) (r :: rs) T2.

(** The part of an entry the bridge stores; the phase is the caller's
    knowledge only. *)
Definition view_entry (en : entry) : session * list Z * Z :=
  (e_session en, e_path en, e_obj en).

End Spec.

Arguments mkEntry {E} _ _ _ _.

(** A table of the specification: handle to Session Wrapper. *)
Abbreviation table := (gmap Z entry).

Section Abstraction.
Context `{E : SyncEngine} `{P : Platform}.

Definition view_js (js : JNISession E) : session * list Z * Z :=
  (js_session js, js_local_path js, js_java_obj js).

(** The handle [reinterpret_cast<jlong>] gives to the address [SS h]. *)
Definition canonical (h : Z) : bool := bool_decide (jlong_of_ptr (SS h) = h).

(** The heap represents the table: a handle is in the table exactly when
    it is the handle of a live wrapper, with that wrapper's contents. *)
Definition abs_heap (hp : gmap Z (JNISession E)) (T : table) : Prop :=
  forall h, view_entry <$> T !! h = if canonical h then view_js <$> hp !! SS h else None.

(** The registry the bridge implements: a null pointer is invalid,
    otherwise the client at the address. *)
Definition registry_of (w : world E) (cl : Z) : option client :=
  if decide (SC cl = 0) then None else w_clients w !! SC cl.

(** The relation between a world and a table between two Java calls. *)
Definition abs_ok (w : world E) (T : table) : Prop :=
  world_wf w /\ w_exc w = None /\ w_pinned w = 0%nat /\ abs_heap (w_heap w) T.

(** A native call as Java sees it: the pending exception is thrown in
    Java when the native method returns. *)
Definition java_call (c : call) : M observation := fun w =>
  match run_call c w with
  | Done r w' => Done (r, bool_decide (is_Some (w_exc w'))) (set_exc None w')
  | Raised e w' => Raised e w'
  | Undefined u => Undefined u
  end.

(** Calls in order, as Java makes them. *)
Fixpoint java_calls (cs : list call) : M (list observation) :=
  match cs with
  | [] => mret []
  | c :: cs' => r ← java_call c; rs ← java_calls cs'; mret (r :: rs)
  end.

(** ** The abstraction under the heap updates of the bridge *)

Lemma canonical_of_ptr a : is_ptr a = true -> canonical (jlong_of_ptr a) = true.
Proof.
  intros Ha. unfold canonical, SS. rewrite ptr_of_jlong_of_ptr by exact Ha.
  now apply bool_decide_eq_true.
Qed.

Lemma canonical_SS h : canonical h = true -> jlong_of_ptr (SS h) = h.
Proof. unfold canonical. now rewrite bool_decide_eq_true. Qed.

Lemma abs_heap_lookup hp T h en :
  abs_heap hp T -> T !! h = Some en ->
  exists js, hp !! SS h = Some js /\ view_js js = view_entry en /\ jlong_of_ptr (SS h) = h.
Proof.
  intros Habs Hh. specialize (Habs h). rewrite Hh in Habs. simpl in Habs.
  destruct (canonical h) eqn:Hc; [|discriminate].
  destruct (hp !! SS h) as [js|]; simplify_eq/=. exists js. auto using canonical_SS.
Qed.

Lemma abs_heap_fresh hp T a :
  abs_heap hp T -> is_ptr a = true -> hp !! a = None -> T !! jlong_of_ptr a = None.
Proof.
  intros Habs Ha Hn. specialize (Habs (jlong_of_ptr a)).
  rewrite canonical_of_ptr, SS_of_ptr, Hn in Habs by exact Ha.
  now destruct (T !! jlong_of_ptr a).
Qed.

(** A key other than [jlong_of_ptr a] does not reach the address [a]. *)
Lemma canonical_ne h a :
  canonical h = true -> h <> jlong_of_ptr a -> SS h <> a.
Proof. intros Hc Hne <-. apply Hne. symmetry. now apply canonical_SS. Qed.

Lemma abs_heap_insert hp T a js en :
  abs_heap hp T -> is_ptr a = true -> view_js js = view_entry en ->
  abs_heap (<[a := js]> hp) (<[jlong_of_ptr a := en]> T).
Proof.
  intros Habs Ha Hv h. destruct (decide (h = jlong_of_ptr a)) as [->|Hne].
  - rewrite lookup_insert_eq, canonical_of_ptr, SS_of_ptr, lookup_insert_eq by exact Ha.
    simpl. now rewrite Hv.
  - rewrite lookup_insert_ne by congruence. rewrite Habs.
    destruct (canonical h) eqn:Hc; [|reflexivity].
    rewrite lookup_insert_ne; [reflexivity|]. symmetry. now apply canonical_ne.
Qed.

Lemma abs_heap_delete hp T a :
  abs_heap hp T -> is_ptr a = true ->
  abs_heap (delete a hp) (delete (jlong_of_ptr a) T).
Proof.
  intros Habs Ha h. destruct (decide (h = jlong_of_ptr a)) as [->|Hne].
  - rewrite lookup_delete_eq, canonical_of_ptr, SS_of_ptr, lookup_delete_eq by exact Ha.
    reflexivity.
  - rewrite lookup_delete_ne by congruence. rewrite Habs.
    destruct (canonical h) eqn:Hc; [|reflexivity].
    rewrite lookup_delete_ne; [reflexivity|]. symmetry. now apply canonical_ne.
Qed.

Lemma abs_ok_intro w T :
  world_wf w -> w_pinned w = 0%nat -> abs_heap (w_heap w) T -> abs_ok (set_exc None w) T.
Proof. intros Hw Hp Ha. split; [exact Hw|]. split; [reflexivity|]. now split. Qed.

(** A call that ends normally, seen from Java. *)
Lemma java_call_Done c w r w' :
  world_wf w -> run_call c w = Done r w' ->
  java_call c w = Done (r, bool_decide (is_Some (w_exc w'))) (set_exc None w') /\ world_wf w'.
Proof.
  intros Hw Hr. unfold java_call. rewrite Hr. split; [reflexivity|].
  pose proof (run_call_preserves c w Hw) as Hp. now rewrite Hr in Hp.
Qed.

Lemma abs_heap_empty : abs_heap ∅ ∅.
Proof. intros h. rewrite !lookup_empty. now destruct (canonical h). Qed.

Lemma abs_heap_singleton a js en :
  is_ptr a = true -> view_js js = view_entry en ->
  abs_heap {[a := js]} {[jlong_of_ptr a := en]}.
Proof.
  intros Ha Hv. rewrite <- !insert_empty. exact (abs_heap_insert _ _ a js en abs_heap_empty Ha Hv).
Qed.

End Abstraction.

(** ** The bridge refines the table, call by call *)

Section Refinement.
Context `{E : SyncEngine} `{P : Platform}.

(** A text that modified UTF-8 and UTF-8 encode alike: code units with no
    NUL and no surrogate. *)
Definition plain (u : list Z) : Prop :=
  all_units u /\ Forall (fun c => c <> 0 /\ is_surrogate c = false) u.

#[global] Instance plain_dec u : Decision (plain u).
Proof. unfold plain, all_units. apply _. Defined.

(** What the refinement needs of the arguments: the strings the bridge
    reads with [GetStringUTFChars] are plain, a version is a Java long. *)
Definition args_ok (c : call) : Prop :=
  match c with
  | CallCreate _ _ (Some u) | CallBind _ _ (Some u) => plain u
  | CallNotify _ v => is_jlong v = true
  | _ => True
  end.

#[global] Instance args_ok_dec c : Decision (args_ok c).
Proof. destruct c as [? ? []|? ? []| | |]; simpl; apply _. Defined.

(** What it needs of the world: the JVM and the C++ heap can allocate,
    and a client handle is null or names a live client. *)
Definition env_ok (w : world E) (c : call) : Prop :=
  w_jvm_oom w = false /\ (2 <= w_budget w)%nat /\ w_free w <> [] /\
  match c with
  | CallCreate _ cl _ => SC cl = 0 \/ is_Some (w_clients w !! SC cl)
  | _ => True
  end.

#[global] Instance env_ok_dec w c : Decision (env_ok w c).
Proof. unfold env_ok. destruct c; apply _. Defined.

(** The call ends normally, Java observes what the specification allows,
    and the world after it represents the table after it. *)
Definition simulates (w : world E) (T : table) (c : call) : Prop :=
  exists r w' T', java_call c w = Done r w' /\ spec_step (registry_of w) T c r T' /\
    abs_ok w' T' /\ w_clients w' = w_clients w.

Lemma simulates_intro w T c r w1 T' :
  world_wf w -> run_call c w = Done r w1 ->
  spec_step (registry_of w) T c (r, bool_decide (is_Some (w_exc w1))) T' ->
  w_pinned w1 = 0%nat -> abs_heap (w_heap w1) T' -> w_clients w1 = w_clients w ->
  simulates w T c.
Proof.
  intros Hw Hr Hs Hp Ha Hc. destruct (java_call_Done c w r w1 Hw Hr) as [Hj Hw1].
  exists (r, bool_decide (is_Some (w_exc w1))), (set_exc None w1), T'.
  split; [exact Hj|]. split; [exact Hs|]. split; [now apply abs_ok_intro|exact Hc].
Qed.

Lemma budget_2 w : (2 <= w_budget w)%nat -> exists n, w_budget w = S (S n).
Proof. intros Hb. destruct (w_budget w) as [|[|n]]; [lia|lia|eauto]. Qed.

Lemma plain_marshal u : plain u -> marshal u = Some (mutf8 u).
Proof. intros [Hu Hp]. now apply utf8_of_utf16_eq_mutf8. Qed.

Lemma registry_of_live w cl c :
  SC cl <> 0 -> w_clients w !! SC cl = Some c -> registry_of w cl = Some c.
Proof. intros H0 Hc. unfold registry_of. now rewrite decide_False. Qed.

(** The handle of a live entry names a live, non-null wrapper with the
    same contents. *)
Lemma abs_ok_live w T h en :
  abs_ok w T -> T !! h = Some en ->
  exists js, w_heap w !! SS h = Some js /\ js_session js = e_session en /\
    js_local_path js = e_path en /\ js_java_obj js = e_obj en /\
    jlong_of_ptr (SS h) = h /\ SS h <> 0 /\ is_ptr (SS h) = true.
Proof.
  intros (Hw & _ & _ & Ha) Hh. destruct (abs_heap_lookup _ _ _ _ Ha Hh) as (js & Hl & Hv & Hc).
  destruct (wf_live w _ _ Hw Hl). unfold view_js, view_entry in Hv. simplify_eq.
  exists js. auto 10.
Qed.

(** Run [run_call] on a call whose native function has run lemma [L]. *)
Ltac run_native L := simpl; erewrite bind_Done by (eapply L; simpl; eauto); reflexivity.

Lemma simulates_create w T obj cl u :
  abs_ok w T -> env_ok w (CallCreate obj cl (Some u)) -> plain u ->
  simulates w T (CallCreate obj cl (Some u)).
Proof.
  intros Hab (Ho & Hb & Hf & Hcl) Hu. pose proof Hab as (Hw & Hx & Hp & Ha).
  destruct (budget_2 w Hb) as [n Hbn].
  destruct (w_free w) as [|a f] eqn:Hfree; [congruence|].
  destruct (decide (SC cl = 0)) as [H0|H0].
  - eapply (simulates_intro _ _ _ (Some 0) (trace_entry fn_create w)); simpl; eauto.
    + simpl. erewrite bind_Done; [reflexivity|]. unfold nativeCreateSession.
      erewrite bind_Done by reflexivity. cbv zeta. now rewrite decide_True.
    + rewrite Hx. apply spec_create_invalid. unfold registry_of. now rewrite decide_True.
  - destruct Hcl as [?|[c Hc]]; [contradiction|].
    destruct (wf_free w a f Hw Hfree) as (Ha0 & Hap & Han).
    pose proof (plain_marshal u Hu) as Hm. destruct Hu as [Hu _].
    destruct (session_open c (mutf8 u)) as [e|s] eqn:Hs.
    + eapply simulates_intro; [exact Hw|run_native nativeCreateSession_rejected_run|..];
        simpl; eauto.
      apply (spec_create_error _ _ _ _ _ c); [now apply registry_of_live|]. right. eauto.
    + eapply simulates_intro; [exact Hw|run_native nativeCreateSession_run|..]; simpl; eauto.
      * rewrite Hx. eapply spec_create_ok; eauto using registry_of_live, abs_heap_fresh.
        now rewrite jlong_of_ptr_eq_0.
      * now apply abs_heap_insert.
Qed.

(** An engine call through a live handle: the entry gets the new session
    and is bound. *)
Lemma abs_heap_update hp T h js en s' :
  abs_heap hp T -> is_ptr (SS h) = true -> jlong_of_ptr (SS h) = h ->
  js_local_path js = e_path en -> js_java_obj js = e_obj en ->
  abs_heap (<[SS h := mkJNISession s' (js_local_path js) (js_java_obj js)]> hp)
           (<[h := mkEntry s' (e_path en) (e_obj en) Bound]> T).
Proof.
  intros Ha Hptr Hcan Hpa Hob. rewrite <- Hcan at 2. apply abs_heap_insert; [exact Ha|exact Hptr|].
  unfold view_js, view_entry. simpl. congruence.
Qed.

Lemma simulates_bind w T h url tok en :
  abs_ok w T -> env_ok w (CallBind h (Some url) (Some tok)) -> plain tok ->
  T !! h = Some en -> e_phase en = Created ->
  simulates w T (CallBind h (Some url) (Some tok)).
Proof.
  intros Hab (Ho & Hb & _) Ht Hh Hph. pose proof Hab as (Hw & Hx & Hp & Ha).
  destruct (budget_2 w Hb) as [n Hbn].
  destruct (abs_ok_live w T h en Hab Hh) as (js & Hl & Hs & Hpa & Hob & Hcan & H0 & Hptr).
  pose proof (plain_marshal tok Ht) as Hm. destruct Ht as [Ht _].
  destruct (utf8_of_utf16 url) as [b|] eqn:Hu.
  - destruct (session_bind (js_session js) (Some b) (mutf8 tok)) as [e|s'] eqn:Hsb.
    + eapply simulates_intro; [exact Hw|run_native nativeBind_rejected_run|..]; simpl; eauto.
      apply (spec_bind_error _ _ h url tok en); auto. right. right. rewrite <- Hs. eauto 10.
    + eapply simulates_intro; [exact Hw|run_native nativeBind_run|..]; simpl; eauto.
      * rewrite Hx. apply (spec_bind_ok _ _ h url tok en b (mutf8 tok)); auto. rewrite <- Hs; eassumption.
      * now apply abs_heap_update.
  - eapply simulates_intro; [exact Hw|run_native nativeBind_bad_url_run|..]; simpl; eauto.
    eapply spec_bind_error; eauto.
Qed.

Lemma simulates_unbind w T h en :
  abs_ok w T -> T !! h = Some en -> simulates w T (CallUnbind h).
Proof.
  intros Hab Hh. pose proof Hab as (Hw & Hx & Hp & Ha).
  destruct (abs_ok_live w T h en Hab Hh) as (js & Hl & _ & _ & _ & Hcan & H0 & Hptr).
  eapply simulates_intro; [exact Hw|run_native nativeUnbind_run|..]; simpl; eauto.
  - rewrite Hx. eapply spec_unbind; eauto.
  - pose proof (abs_heap_delete _ _ (SS h) Ha Hptr) as Hdel. now rewrite Hcan in Hdel.
Qed.

Lemma simulates_refresh w T h tok en :
  abs_ok w T -> env_ok w (CallRefresh h (Some tok)) ->
  T !! h = Some en -> e_phase en = Bound ->
  simulates w T (CallRefresh h (Some tok)).
Proof.
  intros Hab (Ho & Hb & _) Hh Hph. pose proof Hab as (Hw & Hx & Hp & Ha).
  destruct (budget_2 w Hb) as [n Hbn].
  destruct (abs_ok_live w T h en Hab Hh) as (js & Hl & Hs & Hpa & Hob & Hcan & H0 & Hptr).
  destruct (utf8_of_utf16 tok) as [b|] eqn:Hu.
  - destruct (session_refresh (js_session js) (Some b)) as [e|s'] eqn:Hsr.
    + eapply simulates_intro; [exact Hw|run_native nativeRefresh_rejected_run|..]; simpl; eauto.
      eapply spec_refresh_error; eauto. right. rewrite <- Hs. eauto.
    + eapply simulates_intro; [exact Hw|run_native nativeRefresh_run|..]; simpl; eauto.
      * rewrite Hx. apply (spec_refresh_ok _ _ h tok en b); auto. rewrite <- Hs; eassumption.
      * now apply abs_heap_update.
  - eapply simulates_intro; [exact Hw|run_native nativeRefresh_bad_token_run|..]; simpl; eauto.
    eapply spec_refresh_error; eauto.
Qed.

Lemma simulates_notify w T h v en :
  abs_ok w T -> is_jlong v = true -> 0 <= v ->
  T !! h = Some en -> e_phase en = Bound ->
  simulates w T (CallNotify h v).
Proof.
  intros Hab Hv Hv0 Hh Hph. pose proof Hab as (Hw & Hx & Hp & Ha).
  destruct (abs_ok_live w T h en Hab Hh) as (js & Hl & Hs & Hpa & Hob & Hcan & H0 & Hptr).
  assert (Hu : u64_of_jlong v = v).
  { apply u64_of_jlong_nonneg. apply is_jlong_spec in Hv. lia. }
  destruct (session_notify (js_session js) (u64_of_jlong v)) as [e|s'] eqn:Hsn;
    pose proof Hsn as Hsv; rewrite Hu in Hsv.
  - eapply simulates_intro; [exact Hw|run_native nativeNotifyCommitHappened_rejected_run|..];
      simpl; eauto.
    eapply spec_notify_error; eauto. rewrite <- Hs; eassumption.
  - eapply simulates_intro; [exact Hw|run_native nativeNotifyCommitHappened_run|..]; simpl; eauto.
    + rewrite Hx. eapply spec_notify_ok; eauto. rewrite <- Hs; eassumption.
    + now apply abs_heap_update.
Qed.

(** C2: Refinement of the specification's handle table.  From a world that
    represents a table, every call the specification allows ends normally
    in the bridge when the JVM and the C++ heap can allocate, a client
    handle is null or live, and the strings read with [GetStringUTFChars]
    are plain; Java then observes what a step of the specification gives,
    and the world after the call represents the table after that step. *)
Theorem java_call_refines w T c :
  abs_ok w T -> env_ok w c -> args_ok c ->
  (exists r T', spec_step (registry_of w) T c r T') ->
  exists r w' T', java_call c w = Done r w' /\ spec_step (registry_of w) T c r T' /\
    abs_ok w' T' /\ w_clients w' = w_clients w.
Proof.
  intros Hab Hen Har (r & T' & Hst). fold (simulates w T c).
  destruct Hst; simpl in Har; simpl in Hen.
  1-3: now apply simulates_create.
  1-2: eapply simulates_bind; eauto.
  1: eapply simulates_unbind; eauto.
  1-2: eapply simulates_refresh; eauto.
  1-2: eapply simulates_notify; eauto.
Qed.

Lemma registry_of_clients w w' : w_clients w' = w_clients w -> registry_of w' = registry_of w.
Proof. intros Hc. unfold registry_of. now rewrite Hc. Qed.

(** A Java caller that keeps to the specification: each call is allowed
    by it in the table of the moment, with the resources and arguments
    the refinement needs, whatever the calls before it returned. *)
Fixpoint spec_protocol (cs : list call) (w : world E) (T : table) : Prop :=
  match cs with
  | [] => True
  | c :: cs' =>
      env_ok w c /\ args_ok c /\ (exists r T', spec_step (registry_of w) T c r T') /\
      forall r w' T', java_call c w = Done r w' -> spec_step (registry_of w) T c r T' ->
        abs_ok w' T' -> spec_protocol cs' w' T'
  end.

End Refinement.

Section Traces.
Context `{E : SyncEngine} `{P : Platform}.

(** C13: Refinement of traces: a caller that keeps to the specification sees
    from the bridge a sequence of observations that the specification can
    produce, and the bridge ends in a world that represents the table the
    specification ends with. *)
Theorem java_calls_refine cs w T :
  abs_ok w T -> spec_protocol cs w T ->
  exists rs w' T', java_calls cs w = Done rs w' /\ spec_run (registry_of w) T cs rs T' /\
    abs_ok w' T'.
Proof.
  revert w T. induction cs as [|c cs IH]; intros w T Hab Hp.
  - exists [], w, T. split; [reflexivity|]. split; [constructor|exact Hab].
  - destruct Hp as (Hen & Har & Hex & Hk).
    destruct (java_call_refines w T c Hab Hen Har Hex) as (r & w1 & T1 & Hj & Hs & Hab1 & Hc).
    destruct (IH w1 T1 Hab1 (Hk r w1 T1 Hj Hs Hab1)) as (rs & w2 & T2 & Hjs & Hrun & Hab2).
    exists (r :: rs), w2, T2. split; [|split; [|exact Hab2]].
    + simpl. erewrite bind_Done by exact Hj. erewrite bind_Done by exact Hjs. reflexivity.
    + rewrite (registry_of_clients w w1 Hc) in Hrun. econstructor; eassumption.
Qed.

End Traces.

(** ** The refinement on the reference engine *)

#[local] Existing Instance ref_engine.
#[local] Existing Instance platform64.

(** The table [demo_world] represents: its one wrapper, not yet bound. *)
Definition demo_table : table :=
  {[jlong_of_ptr 0x1000 := mkEntry (js_session demo_session) (js_local_path demo_session)
                             (js_java_obj demo_session) Created]}.

Lemma demo_abs_ok : abs_ok demo_world demo_table.
Proof.
  split; [exact demo_world_wf|]. split; [reflexivity|]. split; [reflexivity|].
  apply abs_heap_singleton; reflexivity.
Qed.

Lemma java_call_refines_witness :
  exists r w' T', java_call (CallBind 0x1000 (Some demo_url) (Some demo_token)) demo_world = Done r w' /\
    spec_step (registry_of demo_world) demo_table (CallBind 0x1000 (Some demo_url) (Some demo_token)) r T' /\
    abs_ok w' T' /\ w_clients w' = w_clients demo_world.
Proof.
  apply java_call_refines.
  - exact demo_abs_ok.
  - apply (bool_decide_unpack _). vm_compute. reflexivity.
  - apply (bool_decide_unpack _). vm_compute. reflexivity.
  - do 2 eexists. eapply spec_bind_ok; vm_compute; reflexivity.
Defined.

Lemma java_calls_refine_witness :
  exists rs w' T',
    java_calls [CallBind 0x1000 (Some demo_url) (Some demo_token); CallNotify 0x1000 5] demo_world =
      Done rs w' /\
    spec_run (registry_of demo_world) demo_table
      [CallBind 0x1000 (Some demo_url) (Some demo_token); CallNotify 0x1000 5] rs T' /\
    abs_ok w' T'.
Proof.
  apply java_calls_refine; [exact demo_abs_ok|]. cbn [spec_protocol].
  split; [apply (bool_decide_unpack _); vm_compute; reflexivity|].
  split; [apply (bool_decide_unpack _); vm_compute; reflexivity|].
  split; [do 2 eexists; eapply spec_bind_ok; vm_compute; reflexivity|].
  intros r w1 T1 Hj Hs _. vm_compute in Hj. injection Hj as <- <-.
  inversion Hs as [| | | ? ? ? en u t s' Hl _ Hu Ht Hb | | | | | |]; subst.
  vm_compute in Hl, Hu, Ht. injection Hl as <-. injection Hu as <-. injection Ht as <-.
  vm_compute in Hb. injection Hb as <-.
  split; [apply (bool_decide_unpack _); vm_compute; reflexivity|].
  split; [apply (bool_decide_unpack _); vm_compute; reflexivity|].
  split; [|intros; exact I].
  do 2 eexists. eapply spec_notify_ok; [apply lookup_insert_eq|reflexivity|lia|reflexivity].
Defined.

