(* ===== verification/Roundtrip.v ===== *)
(** * Decoding what the bridge hands the engine

    The engine receives the local path and the bind token as modified
    UTF-8 (copied out of [GetStringUTFChars]) and the URL and the refresh
    token as UTF-8 (from [JStringAccessor]).  This file gives a decoder
    for each encoding, as the engine's side would read them, and shows
    that decoding the bytes the bridge produces gives back the Java
    string: no information is lost on either path, even for strings with
    NUL units (modified UTF-8 encodes them in two bytes, so the copy into
    [std::string] does not truncate) or surrogate pairs. *)

From S2P Require Import Prelude Utf Engine Jni Session.

Local Open Scope Z_scope.

(** ** Decoders *)

(** Modified UTF-8: one, two or three bytes per code unit. *)
Fixpoint mutf8_decode (b : list Z) : option (list Z) :=
  match b with
  | [] => Some []
  | x :: r =>
      if x <? 0x80 then cons x <$> mutf8_decode r
      else if x <? 0xE0 then
        match r with
        | y :: r' => cons ((x mod 32) * 64 + y mod 64) <$> mutf8_decode r'
        | [] => None
        end
      else
        match r with
        | y :: z :: r' => cons ((x mod 16) * 4096 + (y mod 64) * 64 + z mod 64) <$> mutf8_decode r'
        | _ => None
        end
  end.

(** A code point as UTF-16: itself, or a surrogate pair above U+FFFF. *)
Definition utf16_of_cp (cp : Z) : list Z :=
  if cp <? 0x10000 then [cp]
  else [0xD800 + (cp - 0x10000) / 1024; 0xDC00 + (cp - 0x10000) mod 1024].

(** UTF-8: one to four bytes per code point. *)
Fixpoint utf8_decode (b : list Z) : option (list Z) :=
  match b with
  | [] => Some []
  | x :: r =>
      if x <? 0x80 then cons x <$> utf8_decode r
      else if x <? 0xE0 then
        match r with
        | y :: r' => cons ((x mod 32) * 64 + y mod 64) <$> utf8_decode r'
        | [] => None
        end
      else if x <? 0xF0 then
        match r with
        | y :: z :: r' => cons ((x mod 16) * 4096 + (y mod 64) * 64 + z mod 64) <$> utf8_decode r'
        | _ => None
        end
      else
        match r with
        | y :: z :: t :: r' =>
            app (utf16_of_cp ((x mod 8) * 262144 + (y mod 64) * 4096 + (z mod 64) * 64 + t mod 64))
              <$> utf8_decode r'
        | _ => None
        end
  end.

(** ** One unit at a time *)

(** The bytes of a unit, in arithmetic. *)
Lemma mutf8_unit_arith c :
  is_unit c = true ->
  mutf8_unit c =
    if (1 <=? c) && (c <=? 0x7F) then [c]
    else if c <=? 0x7FF then [0xC0 + c / 64; 0x80 + c mod 64]
    else [0xE0 + c / 4096; 0x80 + (c / 64) mod 64; 0x80 + c mod 64].
Proof.
  unfold is_unit, mutf8_unit. intros Hc. apply andb_prop in Hc as [H0 H1].
  apply Z.leb_le in H0. apply Z.ltb_lt in H1.
  destruct ((1 <=? c) && (c <=? 0x7F)); [reflexivity|].
  destruct (c <=? 0x7FF) eqn:H2; [apply Z.leb_le in H2; apply two_bytes; lia|].
  apply three_bytes. lia.
Qed.

Lemma mutf8_decode_unit c rest :
  is_unit c = true -> mutf8_decode (mutf8_unit c ++ rest) = cons c <$> mutf8_decode rest.
Proof.
  intros Hc. rewrite mutf8_unit_arith by exact Hc. unfold is_unit in Hc.
  zbool_cases; simpl; zbool_cases; do 2 f_equal; zlia.
Qed.

(** The bytes of a code point, in arithmetic. *)
Lemma utf8_cp_arith cp :
  0 <= cp < 0x110000 ->
  utf8_cp cp =
    if cp <? 0x80 then [cp]
    else if cp <? 0x800 then [0xC0 + cp / 64; 0x80 + cp mod 64]
    else if cp <? 0x10000 then [0xE0 + cp / 4096; 0x80 + (cp / 64) mod 64; 0x80 + cp mod 64]
    else [0xF0 + cp / 262144; 0x80 + (cp / 4096) mod 64; 0x80 + (cp / 64) mod 64; 0x80 + cp mod 64].
Proof.
  intros Hc. unfold utf8_cp.
  destruct (cp <? 0x80); [reflexivity|].
  destruct (cp <? 0x800) eqn:H1; [apply Z.ltb_lt in H1; apply two_bytes; lia|].
  destruct (cp <? 0x10000) eqn:H2; [apply Z.ltb_lt in H2; apply three_bytes; lia|].
  apply four_bytes. lia.
Qed.

Lemma utf8_decode_cp cp rest :
  0 <= cp < 0x110000 ->
  utf8_decode (utf8_cp cp ++ rest) = app (utf16_of_cp cp) <$> utf8_decode rest.
Proof.
  intros Hc. rewrite utf8_cp_arith by exact Hc. unfold utf16_of_cp.
  zbool_cases; simpl; zbool_cases; try (do 2 f_equal; zlia).
  match goal with |- context [utf16_of_cp ?e] => replace e with cp by zlia end.
  unfold utf16_of_cp. rewrite (proj2 (Z.ltb_ge cp 0x10000)) by lia. reflexivity.
Qed.

Lemma utf16_of_cp_bmp c : 0 <= c < 0x10000 -> utf16_of_cp c = [c].
Proof. intros Hc. unfold utf16_of_cp. now rewrite (proj2 (Z.ltb_lt c 0x10000)). Qed.

Lemma utf16_of_pair_cp c d :
  is_high c = true -> is_low d = true -> utf16_of_cp (pair_cp c d) = [c; d].
Proof.
  intros Hc Hd. pose proof (pair_cp_range c d Hc Hd). unfold utf16_of_cp.
  rewrite (proj2 (Z.ltb_ge _ 0x10000)) by lia.
  unfold is_high, is_low, pair_cp in *. rewrite Z.shiftl_mul_pow2 by lia.
  change (2 ^ 10) with 1024. zbool_cases. f_equal; [zlia|f_equal; zlia].
Qed.

(** ** Round trips *)

Lemma mutf8_roundtrip s : all_units s -> mutf8_decode (mutf8 s) = Some s.
Proof.
  induction s as [|c s IH]; intros Hs; [reflexivity|]. apply Forall_cons in Hs as [Hc Hs].
  unfold mutf8. simpl. fold (mutf8 s). rewrite mutf8_decode_unit by exact Hc.
  now rewrite IH.
Qed.

Lemma utf8_roundtrip s b : all_units s -> utf8_of_utf16 s = Some b -> utf8_decode b = Some s.
Proof.
  revert b. induction s as [s IH] using (induction_ltof1 _ (@length Z)); unfold ltof in IH.
  intros b Hu Hb. destruct s as [|c s]; simpl in Hb; [now injection Hb as <-|].
  apply Forall_cons in Hu as [Hc Hu]. unfold is_unit in Hc.
  destruct (is_surrogate c) eqn:Hs; simpl in Hb.
  - destruct (is_low c) eqn:Hl; [discriminate|]. destruct s as [|d s]; [discriminate|].
    apply Forall_cons in Hu as [_ Hu]. destruct (is_low d) eqn:Hd; [|discriminate].
    destruct (utf8_of_utf16 s) as [t|] eqn:Ht; simpl in Hb; [|discriminate]. injection Hb as <-.
    pose proof (surrogate_high_or_low c Hs Hl) as Hh. pose proof (pair_cp_range c d Hh Hd).
    rewrite utf8_decode_cp by lia. rewrite utf16_of_pair_cp by assumption.
    now rewrite (IH s ltac:(simpl; lia) t Hu Ht).
  - destruct (utf8_of_utf16 s) as [t|] eqn:Ht; simpl in Hb; [|discriminate]. injection Hb as <-.
    rewrite utf8_decode_cp by (zbool_cases; lia). rewrite utf16_of_cp_bmp by (zbool_cases; lia).
    now rewrite (IH s ltac:(simpl; lia) t Hu Ht).
Qed.

(** ** What the engine receives determines the Java string *)

Section Marshalling.
Context `{E : SyncEngine}.

(** C31: Both ways the file reads a Java string lose nothing: the bytes lines
    50-52 (and 67-69) copy out of [GetStringUTFChars] decode, as
    modified UTF-8, to the string itself, NUL units included, and the
    bytes [JStringAccessor] produces decode, as UTF-8, to the string. *)
Theorem marshalling_roundtrip u w n :
  all_units u -> w_jvm_oom w = false -> w_budget w = S n ->
  (exists b, read_utf_chars (Some u) w = Done b (set_budget n w) /\ mutf8_decode b = Some u) /\
  (forall b w', JStringAccessor (Some u) w = Done (Some b) w' -> utf8_decode b = Some u).
Proof.
  intros Hu Ho Hb. split.
  - exists (mutf8 u). split; [now apply read_utf_chars_ok|now apply mutf8_roundtrip].
  - intros b w' H. exact (utf8_roundtrip u b Hu (JStringAccessor_Done_inv u w b w' H)).
Qed.

End Marshalling.

#[local] Existing Instance ref_engine.

Lemma marshalling_roundtrip_witness :
  (exists b, read_utf_chars (Some [0; 0xE9; 0xD83D; 0xDE00]) demo_world = Done b (set_budget 9 demo_world) /\
             mutf8_decode b = Some [0; 0xE9; 0xD83D; 0xDE00]) /\
  (forall b w', JStringAccessor (Some [0; 0xE9; 0xD83D; 0xDE00]) demo_world = Done (Some b) w' ->
                utf8_decode b = Some [0; 0xE9; 0xD83D; 0xDE00]).
Proof. use_theorem (marshalling_roundtrip [0; 0xE9; 0xD83D; 0xDE00] demo_world 9). Defined.
