(* ===== verification/Concurrency.v ===== *)
(** * Concurrent calls: the native functions as sequences of atomic steps

    The bridge takes no lock (section 5 of the specification leaves the
    serialisation of [nativeUnbind] against other calls on the same
    handle to the Java caller), so two Java threads may run two native
    functions at once.  To say what can happen then, each function is cut
    into the atomic steps it performs on the shared world ([prog]: a step
    is a computation of [M] that returns the rest of the program), and two
    threads interleave their steps ([par_step], a step relation on
    configurations).

    The cut follows the source: [TR_ENTER]; each JNI string call; the
    read of the wrapper by [session_wrapper->get_session()]; the engine
    call, which can block for long (bind and refresh perform network
    setup); and the moment the engine's update of the session object
    lands in the wrapper ([write_back]), which is undefined behaviour
    when the wrapper has been deleted meanwhile.  Run alone, the cut
    functions are the functions of [Session] ([steps_equiv], a check of
    the cut); every interleaving of two of them ends ([par_terminates]);
    and, on every engine, an unbind that runs while a bind is inside the
    engine makes the bind write to a deleted wrapper
    ([bind_unbind_race]).  The other calls never need
    serialising: [safe] is a thread-modular invariant argument (every
    step, from any world the other thread may have left, keeps the
    invariant), and bind, refresh and notify keep [shared_ok], so any two
    of them interleave without undefined behaviour
    ([nondestructive_calls_safe]). *)

From S2P Require Import Prelude MachineInt Utf Engine Jni Session.

Local Open Scope Z_scope.

(** Induction through [outcome] for the programs below. *)
Scheme All for outcome.

(** A program of atomic steps on the world. *)
Inductive prog `{E : SyncEngine} (A : Type) : Type :=
| PRet (a : A)
| PStep (m : M (prog A)).

Arguments PRet {E A} a.
Arguments PStep {E A} m.

Section Prog.
Context `{E : SyncEngine}.

(** Running a program alone. *)
Fixpoint run_prog {A} (p : prog A) : M A :=
  match p with
  | PRet a => mret a
  | PStep m => fun w =>
      match m w with
      | Done p' w' => run_prog p' w'
      | Raised e w' => Raised e w'
      | Undefined u => Undefined u
      end
  end.

(** A computation of [M] performed as one step. *)
Definition atom {A} (m : M A) : prog A := PStep (fun w =>
  match m w with
  | Done a w' => Done (PRet a) w'
  | Raised e w' => Raised e w'
  | Undefined u => Undefined u
  end).

Fixpoint pbind {A B} (f : A -> prog B) (p : prog A) : prog B :=
  match p with
  | PRet a => f a
  | PStep m => PStep (fun w =>
      match m w with
      | Done p' w' => Done (pbind f p') w'
      | Raised e w' => Raised e w'
      | Undefined u => Undefined u
      end)
  end.

(** [CATCH_STD()] around a program: the step that throws ends the block
    with the converted exception pending. *)
Fixpoint pcatch {A} (p : prog A) : prog (option A) :=
  match p with
  | PRet a => PRet (Some a)
  | PStep m => PStep (fun w =>
      match m w with
      | Done p' w' => Done (pcatch p') w'
      | Raised e w' => Done (PRet None) (set_exc (Some (ConvertException e)) w')
      | Undefined u => Undefined u
      end)
  end.

End Prog.

#[export] Instance prog_ret `{E : SyncEngine} : MRet prog := fun A a => PRet a.
#[export] Instance prog_bind `{E : SyncEngine} : MBind prog := fun A B f p => pbind f p.

(** ** Running a program alone *)

(** Computations equal on every world. *)
#[export] Instance M_equiv `{E : SyncEngine} {A} : Equiv (M A) := fun m1 m2 => forall w, m1 w = m2 w.

Section Run.
Context `{E : SyncEngine}.

#[export] Instance M_equivalence {A} : Equivalence (≡@{M A}).
Proof. split; [intros m w|intros m1 m2 H w|intros m1 m2 m3 H1 H2 w]; congruence. Qed.

#[export] Instance mbind_M_proper {A B} :
  Proper (pointwise_relation A (≡) ==> (≡) ==> (≡)) (@mbind M _ A B).
Proof.
  intros f g Hfg m1 m2 Hm w. unfold mbind, M_bind. rewrite Hm. destruct (m2 w); [apply Hfg|..]; reflexivity.
Qed.

#[export] Instance CATCH_STD_proper {A} : Proper ((≡) ==> (≡)) (@CATCH_STD E A).
Proof. intros m1 m2 Hm w. unfold CATCH_STD. now rewrite Hm. Qed.

Lemma outcome_all_Done {A} (P : A -> Prop) a w : outcome_all E A P (Done a w) -> P a.
Proof. intros H. now inversion H. Qed.

Lemma run_prog_ret {A} (a : A) : run_prog (mret a : prog A) ≡ mret a.
Proof. intros w. reflexivity. Qed.

Lemma run_prog_atom {A} (m : M A) : run_prog (atom m) ≡ m.
Proof. intros w. simpl. now destruct (m w). Qed.

Lemma run_prog_bind {A B} (p : prog A) (f : A -> prog B) :
  run_prog (p ≫= f) ≡ (run_prog p ≫= fun a => run_prog (f a)).
Proof.
  induction p as [a|m IH]; intros w; [reflexivity|]. simpl. specialize (IH w).
  unfold mbind, M_bind in *. destruct (m w); simpl in *; [|reflexivity|reflexivity].
  apply (outcome_all_Done _ _ _ IH).
Qed.

Lemma run_prog_catch {A} (p : prog A) : run_prog (pcatch p) ≡ CATCH_STD (run_prog p).
Proof.
  induction p as [a|m IH]; intros w; [reflexivity|]. simpl. specialize (IH w).
  unfold CATCH_STD in *. destruct (m w); simpl in *; [|reflexivity|reflexivity].
  apply (outcome_all_Done _ _ _ IH).
Qed.

End Run.

(** Turn a program run alone into the computation it performs. *)
Ltac run_prog_simpl :=
  repeat first [ setoid_rewrite run_prog_bind | setoid_rewrite run_prog_catch
               | setoid_rewrite run_prog_atom | setoid_rewrite run_prog_ret ].

(** ** The native functions, step by step *)

Section Steps.
Context `{E : SyncEngine} `{P : Platform}.

(** Lines 50-52 and 67-69: three JNI and C++ calls. *)
Definition read_utf_chars_steps (s : jstring) : prog (list Z) :=
  tmp ← atom (GetStringUTFChars s);
  str ← atom (std_string_of_cstr tmp);
  atom ReleaseStringUTFChars ;;
  mret str.

(** The engine's update lands in the session object the wrapper owns;
    if the wrapper has been deleted since it was read, that object is
    gone. *)
Definition write_back (a : Z) (js : JNISession E) : M unit := fun w =>
  match w_heap w !! a with
  | Some _ => Done () (set_heap (<[a := js]> (w_heap w)) w)
  | None => Undefined UB_DanglingSession
  end.

(** Line 75 (98, 109): read the wrapper, run the engine, update the
    session in the wrapper. *)
Definition session_call_steps (a : Z) (op : session -> cxx_exc + session) : prog unit :=
  js ← atom (deref_session a);
  s' ← atom (engine (op (js_session js)));
  atom (write_back a (mkJNISession s' (js_local_path js) (js_java_obj js))).

Definition nativeCreateSession_steps (obj : Z) (clientPointer : Z) (localRealmPath : jstring)
    : prog Z :=
  atom (TR_ENTER fn_create) ;;
  let sync_client := SC clientPointer in
  if decide (sync_client = 0) then mret 0
  else
    r ← pcatch (
      local_path ← read_utf_chars_steps localRealmPath;
      jni_session ← atom (new_JNISession sync_client local_path obj);
      mret (jlong_of_ptr jni_session));
    mret (default 0 r).

Definition nativeBind_steps (sessionPointer : Z) (remoteUrl accessToken : jstring) : prog unit :=
  atom (TR_ENTER fn_bind) ;;
  _ ← pcatch (
    let session_wrapper := SS sessionPointer in
    access_token ← read_utf_chars_steps accessToken;
    remote_url ← atom (JStringAccessor remoteUrl);
    session_call_steps session_wrapper (fun s => session_bind s remote_url access_token));
  mret ().

Definition nativeUnbind_steps (sessionPointer : Z) : prog unit :=
  atom (TR_ENTER fn_unbind) ;;
  atom (delete_JNISession (SS sessionPointer)).

Definition nativeRefresh_steps (sessionPointer : Z) (accessToken : jstring) : prog unit :=
  atom (TR_ENTER fn_refresh) ;;
  _ ← pcatch (
    let session_wrapper := SS sessionPointer in
    access_token ← atom (JStringAccessor accessToken);
    session_call_steps session_wrapper (fun s => session_refresh s access_token));
  mret ().

Definition nativeNotifyCommitHappened_steps (sessionPointer : Z) (version : Z) : prog unit :=
  atom (TR_ENTER fn_notify) ;;
  _ ← pcatch (
    let session_wrapper := SS sessionPointer in
    session_call_steps session_wrapper (fun s => session_notify s (u64_of_jlong version)));
  mret ().

End Steps.

(** ** Run alone, the steps are the functions of [Session] *)

Section Equiv.
Context `{E : SyncEngine} `{P : Platform}.

Lemma read_utf_chars_steps_equiv s : run_prog (read_utf_chars_steps s) ≡ read_utf_chars s.
Proof. unfold read_utf_chars_steps, read_utf_chars. run_prog_simpl. reflexivity. Qed.

(** The wrapper read at the start is still live when the update lands,
    so the check of [write_back] always passes. *)
Lemma session_call_steps_equiv a op : run_prog (session_call_steps a op) ≡ session_call a op.
Proof.
  unfold session_call_steps. run_prog_simpl. intros w.
  unfold session_call, deref_session, write_back, engine, modify, throw. unfold_M.
  case_decide; [reflexivity|]. destruct (w_heap w !! a) as [js|] eqn:Hl; [|reflexivity].
  destruct (op (js_session js)); simpl; [reflexivity|]. now rewrite Hl.
Qed.

(** Keep the two helpers folded while rewriting the functions that use them. *)
Local Opaque read_utf_chars_steps session_call_steps.

Ltac steps_equiv_tac :=
  run_prog_simpl;
  repeat first [ setoid_rewrite read_utf_chars_steps_equiv
               | setoid_rewrite session_call_steps_equiv ];
  reflexivity.

(** Cut into atomic steps and run alone, each native function computes
    exactly what the function of [Session] computes, on every world. *)
Theorem steps_equiv :
  (forall obj cp p w, run_prog (nativeCreateSession_steps obj cp p) w = nativeCreateSession obj cp p w) /\
  (forall h url tok w, run_prog (nativeBind_steps h url tok) w = nativeBind h url tok w) /\
  (forall h w, run_prog (nativeUnbind_steps h) w = nativeUnbind h w) /\
  (forall h tok w, run_prog (nativeRefresh_steps h tok) w = nativeRefresh h tok w) /\
  (forall h v w, run_prog (nativeNotifyCommitHappened_steps h v) w = nativeNotifyCommitHappened h v w).
Proof.
  split; [|split; [|split; [|split]]]; intros *;
    match goal with |- run_prog ?a ?w = ?b ?w => enough (Heq : run_prog a ≡ b) by exact (Heq w) end.
  - unfold nativeCreateSession_steps, nativeCreateSession. cbv zeta.
    destruct (decide (SC cp = 0)); steps_equiv_tac.
  - unfold nativeBind_steps, nativeBind. steps_equiv_tac.
  - unfold nativeUnbind_steps, nativeUnbind. steps_equiv_tac.
  - unfold nativeRefresh_steps, nativeRefresh. steps_equiv_tac.
  - unfold nativeNotifyCommitHappened_steps, nativeNotifyCommitHappened. steps_equiv_tac.
Qed.

End Equiv.

(** ** Two threads *)

(** Two threads and the world they share, or how the run ended: both
    returned, a C++ exception escaped a thread, or undefined behaviour. *)
Inductive cfg `{E : SyncEngine} (A B : Type) :=
| Run (p : prog A) (q : prog B) (w : world E)
| Stop (o : outcome (A * B)).

Arguments Run {E A B} p q w.
Arguments Stop {E A B} o.

Section Par.
Context `{E : SyncEngine} {A B : Type}.

(** One atomic step of either thread. *)
Inductive par_step : cfg A B -> cfg A B -> Prop :=
| par_left m q w p' w' :
    m w = Done p' w' -> par_step (Run (PStep m) q w) (Run p' q w')
| par_left_raise m q w e w' :
    m w = Raised e w' -> par_step (Run (PStep m) q w) (Stop (Raised e w'))
| par_left_ub m q w u :
    m w = Undefined u -> par_step (Run (PStep m) q w) (Stop (Undefined u))
| par_right p m w q' w' :
    m w = Done q' w' -> par_step (Run p (PStep m) w) (Run p q' w')
| par_right_raise p m w e w' :
    m w = Raised e w' -> par_step (Run p (PStep m) w) (Stop (Raised e w'))
| par_right_ub p m w u :
    m w = Undefined u -> par_step (Run p (PStep m) w) (Stop (Undefined u))
| par_done a b w :
    par_step (Run (PRet a) (PRet b) w) (Stop (Done (a, b) w)).

Lemma acc_stop o : Acc (fun c' c => par_step c c') (Stop o).
Proof. constructor. intros c H. inversion H. Qed.

(** Each step consumes a step of one of the two programs. *)
Lemma acc_run p : forall q w, Acc (fun c' c => par_step c c') (Run p q w).
Proof.
  induction p as [a|m IHp]; intros q; induction q as [b|n IHq]; intros w;
    constructor; intros c Hs; inversion Hs; subst; try apply acc_stop.
  all: match goal with
       | Hm : ?m ?w = Done _ _, IH : forall w0, outcome_all _ _ _ (?m w0) |- _ =>
           specialize (IH w); rewrite Hm in IH; apply (outcome_all_Done _ _ _ IH)
       end.
Qed.

(** Every interleaving of two threads ends: there is no infinite
    sequence of steps, whatever the scheduler does. *)
Theorem par_terminates : well_founded (fun c' c : cfg A B => par_step c c').
Proof. intros [p q w|o]; [apply acc_run|apply acc_stop]. Qed.

(** A scheduler run: [true] steps the left thread, [false] the right
    one; a thread that has returned does not step. *)
Definition sched_step (left : bool) (c : cfg A B) : cfg A B :=
  match c with
  | Stop o => Stop o
  | Run (PRet a) (PRet b) w => Stop (Done (a, b) w)
  | Run p q w =>
      if left then
        match p with
        | PStep m =>
            match m w with
            | Done p' w' => Run p' q w'
            | Raised e w' => Stop (Raised e w')
            | Undefined u => Stop (Undefined u)
            end
        | PRet _ => c
        end
      else
        match q with
        | PStep m =>
            match m w with
            | Done q' w' => Run p q' w'
            | Raised e w' => Stop (Raised e w')
            | Undefined u => Stop (Undefined u)
            end
        | PRet _ => c
        end
  end.

Fixpoint run_sched (s : list bool) (c : cfg A B) : cfg A B :=
  match s with
  | [] => c
  | b :: s' => run_sched s' (sched_step b c)
  end.

Lemma sched_step_sound b c : rtc par_step c (sched_step b c).
Proof.
  destruct c as [p q w|o]; [|apply rtc_refl].
  destruct p as [a|m], q as [b'|n]; simpl;
    [apply rtc_once, par_done|destruct b|destruct b|destruct b]; try apply rtc_refl;
    match goal with
    | |- context [match ?m ?w with _ => _ end] => destruct (m w) eqn:Hm
    end; apply rtc_once; econstructor; eassumption.
Qed.

(** Whatever a scheduler run reaches, the interleaving semantics reaches. *)
Lemma run_sched_sound s c : rtc par_step c (run_sched s c).
Proof.
  revert c. induction s as [|b s IH]; intros c; [apply rtc_refl|].
  eapply rtc_trans; [apply sched_step_sound|apply IH].
Qed.

End Par.

(** ** Calls that never delete a wrapper *)

(** Thread-modular safety: a program is [safe] for an invariant [Inv]
    when each of its steps, taken from any world where [Inv] holds, is
    defined and keeps [Inv].  The world a step starts from is whatever the
    other thread left, so two safe programs interleave safely. *)

Section Safe.
Context `{E : SyncEngine}.
Variable Inv : world E -> Prop.

(** The outcome of a step: [Inv] holds after it, and a step that
    continues continues with a value satisfying [Q]. *)
Definition step_ok {A} (Q : A -> Prop) (o : outcome A) : Prop :=
  match o with
  | Done a w' => Inv w' /\ Q a
  | Raised _ w' => Inv w'
  | Undefined _ => False
  end.

Fixpoint safe {A} (p : prog A) : Prop :=
  match p with
  | PRet _ => True
  | PStep m => forall w, Inv w ->
      match m w with
      | Done p' w' => Inv w' /\ safe p'
      | Raised _ w' => Inv w'
      | Undefined _ => False
      end
  end.

(** What the configuration of two threads must satisfy. *)
Definition cfg_safe {A B} (c : cfg A B) : Prop :=
  match c with
  | Run p q w => safe p /\ safe q /\ Inv w
  | Stop (Undefined _) => False
  | Stop _ => True
  end.

(** A computation of [M] whose steps keep [Inv] and return values in [Q]. *)
Definition m_ok {A} (Q : A -> Prop) (m : M A) : Prop := forall w, Inv w -> step_ok Q (m w).

Lemma safe_atom_bind {A B} (Q : A -> Prop) (m : M A) (k : A -> prog B) :
  m_ok Q m -> (forall a, Q a -> safe (k a)) -> safe (atom m ≫= k).
Proof.
  intros Hm Hk w Hw. specialize (Hm w Hw). simpl.
  destruct (m w); simpl in *; [|exact Hm|exact Hm]. destruct Hm. auto.
Qed.

Lemma safe_atom {A} (Q : A -> Prop) (m : M A) : m_ok Q m -> safe (atom m).
Proof. intros Hm w Hw. specialize (Hm w Hw). simpl. destruct (m w); simpl in *; tauto. Qed.

Lemma safe_bind {A B} (p : prog A) (f : A -> prog B) :
  safe p -> (forall a, safe (f a)) -> safe (p ≫= f).
Proof.
  induction p as [a|m IH]; [intros _ Hf; apply Hf|]. intros Hp Hf w Hw.
  specialize (IH w). specialize (Hp w Hw). simpl.
  destruct (m w); simpl in *; [|exact Hp|exact Hp]. destruct Hp as [Hw' Hp].
  split; [exact Hw'|]. exact (outcome_all_Done _ _ _ IH Hp Hf).
Qed.

(** A pending exception is no part of the invariant, so [CATCH_STD()]
    keeps safety. *)
Hypothesis Inv_exc : forall x w, Inv w -> Inv (set_exc x w).

Lemma safe_catch {A} (p : prog A) : safe p -> safe (pcatch p).
Proof.
  induction p as [a|m IH]; [trivial|]. intros Hp w Hw.
  specialize (IH w). specialize (Hp w Hw). simpl.
  destruct (m w); simpl in *; [|split; [now apply Inv_exc|trivial]|exact Hp].
  destruct Hp as [Hw' Hp]. split; [exact Hw'|]. exact (outcome_all_Done _ _ _ IH Hp).
Qed.

(** Every step of two safe threads keeps the configuration safe. *)
Lemma par_step_safe {A B} (c c' : cfg A B) : par_step c c' -> cfg_safe c -> cfg_safe c'.
Proof.
  intros Hs Hc. destruct Hs as [m q w p' w' Hm|m q w e w' Hm|m q w u Hm
                               |p m w q' w' Hm|p m w e w' Hm|p m w u Hm|a b w];
    simpl in Hc |- *; destruct Hc as (Hp & Hq & Hw); try exact I;
    first [specialize (Hp w Hw) | specialize (Hq w Hw)]; rewrite Hm in *; tauto.
Qed.

Lemma par_safe {A B} (c c' : cfg A B) : rtc par_step c c' -> cfg_safe c -> cfg_safe c'.
Proof. induction 1; eauto using par_step_safe. Qed.

End Safe.

(** The invariant two non-destructive calls share: the JVM can allocate
    (so [GetStringUTFChars] returns a buffer) and the wrappers at [hs]
    are live.  Only [nativeUnbind] deletes a wrapper, so no step of the
    other calls breaks it. *)

Section Shared.
Context `{E : SyncEngine} `{P : Platform}.

Definition live_wrapper (a : Z) (w : world E) : Prop := a <> 0 /\ is_Some (w_heap w !! a).

#[export] Instance live_wrapper_dec a w : Decision (live_wrapper a w).
Proof. unfold live_wrapper. apply _. Defined.

Definition shared_ok (hs : list Z) (w : world E) : Prop :=
  w_jvm_oom w = false /\ Forall (fun a => live_wrapper a w) hs.

Variable hs : list Z.

Lemma shared_ok_frame w w' :
  w_heap w' = w_heap w -> w_jvm_oom w' = w_jvm_oom w -> shared_ok hs w -> shared_ok hs w'.
Proof. unfold shared_ok, live_wrapper. intros Hh Ho. rewrite Hh, Ho. trivial. Qed.

Lemma shared_ok_exc x w : shared_ok hs w -> shared_ok hs (set_exc x w).
Proof. now apply shared_ok_frame. Qed.

Lemma shared_ok_insert a js w : shared_ok hs w -> shared_ok hs (set_heap (<[a := js]> (w_heap w)) w).
Proof.
  intros [Ho Hl]. split; [exact Ho|]. eapply Forall_impl; [exact Hl|].
  intros b [Hb Hs]. split; [exact Hb|]. simpl. apply lookup_insert_is_Some'. now right.
Qed.

Lemma shared_ok_live a w : a ∈ hs -> shared_ok hs w -> exists js, a <> 0 /\ w_heap w !! a = Some js.
Proof.
  intros Ha [_ Hl]. rewrite Forall_forall in Hl. destruct (Hl a Ha) as [Hb [js Hjs]]. eauto.
Qed.

(** The steps on the world, one by one. *)

Ltac frame_close Hw :=
  simpl; unfold_M;
  repeat first [ exact I | split | eapply shared_ok_frame; [..|exact Hw]; reflexivity ].
Ltac frame_ok := let w := fresh "w" in let Hw := fresh "Hw" in intros w Hw; frame_close Hw.

Lemma TR_ENTER_keeps fn : m_ok (shared_ok hs) (fun _ => True) (TR_ENTER fn).
Proof. frame_ok. Qed.

Lemma GetStringUTFChars_keeps u : m_ok (shared_ok hs) is_Some (GetStringUTFChars (Some u)).
Proof.
  intros w Hw. unfold GetStringUTFChars. rewrite (proj1 Hw). simpl. split; [|eauto].
  eapply shared_ok_frame; [..|exact Hw]; reflexivity.
Qed.

Lemma cxx_alloc_keeps : m_ok (shared_ok hs) (fun _ => True) cxx_alloc.
Proof. intros w Hw. unfold cxx_alloc. destruct (w_budget w); frame_close Hw. Qed.

Lemma std_string_of_cstr_keeps buf : m_ok (shared_ok hs) (fun _ => True) (std_string_of_cstr (Some buf)).
Proof.
  intros w Hw. unfold std_string_of_cstr. unfold_M. pose proof (cxx_alloc_keeps w Hw) as H.
  destruct (cxx_alloc w); simpl in *; tauto.
Qed.

Lemma ReleaseStringUTFChars_keeps : m_ok (shared_ok hs) (fun _ => True) ReleaseStringUTFChars.
Proof. frame_ok. Qed.

Lemma JStringAccessor_keeps s : m_ok (shared_ok hs) (fun _ => True) (JStringAccessor s).
Proof.
  intros w Hw. destruct s as [u|]; [|frame_close Hw]. unfold JStringAccessor. unfold_M.
  pose proof (cxx_alloc_keeps w Hw) as H. destruct (cxx_alloc w); simpl in *; [|tauto|tauto].
  destruct (utf8_of_utf16 u); simpl; tauto.
Qed.

Lemma deref_session_keeps a : a ∈ hs -> m_ok (shared_ok hs) (fun _ => True) (deref_session a).
Proof.
  intros Ha w Hw. destruct (shared_ok_live a w Ha Hw) as (js & Hz & Hjs).
  unfold deref_session. rewrite decide_False by exact Hz. rewrite Hjs. now split.
Qed.

Lemma engine_keeps {A} (r : cxx_exc + A) : m_ok (shared_ok hs) (fun _ => True) (engine r).
Proof. intros w Hw. destruct r; simpl; unfold throw; unfold_M; simpl; tauto. Qed.

Lemma write_back_keeps a js : a ∈ hs -> m_ok (shared_ok hs) (fun _ => True) (write_back a js).
Proof.
  intros Ha w Hw. destruct (shared_ok_live a w Ha Hw) as (js' & _ & Hjs).
  unfold write_back. rewrite Hjs. split; [now apply shared_ok_insert|trivial].
Qed.

End Shared.

Section Calls.
Context `{E : SyncEngine} `{P : Platform}.
Variable hs : list Z.

Lemma read_utf_chars_steps_safe u : safe (shared_ok hs) (read_utf_chars_steps (Some u)).
Proof.
  unfold read_utf_chars_steps.
  eapply safe_atom_bind; [apply GetStringUTFChars_keeps|intros tmp [buf ->]].
  eapply safe_atom_bind; [apply std_string_of_cstr_keeps|intros str _].
  eapply safe_atom_bind; [apply ReleaseStringUTFChars_keeps|intros; exact I].
Qed.

Lemma session_call_steps_safe a op : a ∈ hs -> safe (shared_ok hs) (session_call_steps a op).
Proof.
  intros Ha. unfold session_call_steps.
  eapply safe_atom_bind; [now apply deref_session_keeps|intros js _].
  eapply safe_atom_bind; [apply engine_keeps|intros s' _].
  eapply safe_atom. now apply write_back_keeps.
Qed.

(** The calls that never delete a wrapper: bind with a token (a null
    token is undefined behaviour on its own, see [nativeBind_null_token]),
    refresh and notify. *)
Inductive nondestructive (h : Z) : prog unit -> Prop :=
| nd_bind url tok : nondestructive h (nativeBind_steps h url (Some tok))
| nd_refresh tok : nondestructive h (nativeRefresh_steps h tok)
| nd_notify v : nondestructive h (nativeNotifyCommitHappened_steps h v).

End Calls.

(** [TR_ENTER], then a body under [CATCH_STD()]. *)
Ltac native_safe :=
  eapply safe_atom_bind; [apply TR_ENTER_keeps|intros _ _];
  apply safe_bind; [|intros; exact I]; apply safe_catch; [apply shared_ok_exc|]; cbv zeta.

Section NoRace.
Context `{E : SyncEngine} `{P : Platform}.

(** C11: Only [nativeUnbind] needs serialising.  Two Java threads that
    bind (with a token), refresh or notify on live handles, the same
    handle or two, never reach undefined behaviour, under every engine
    and in every interleaving of their steps, as long as the JVM can
    allocate: no step of these calls deletes a wrapper, so each wrapper
    read, and each engine update written back, finds its wrapper live. *)
Theorem nondestructive_calls_safe h1 h2 p q w c :
  nondestructive h1 p -> nondestructive h2 q ->
  w_jvm_oom w = false -> live_wrapper (SS h1) w -> live_wrapper (SS h2) w ->
  rtc par_step (Run p q w) c -> forall u, c <> Stop (Undefined u).
Proof.
  intros Hp Hq Ho H1 H2 Hc u ->. set (hs := [SS h1; SS h2]).
  assert (Hnd : forall h r, SS h ∈ hs -> nondestructive h r -> safe (shared_ok hs) r).
  { intros h r Ha [];
      [unfold nativeBind_steps|unfold nativeRefresh_steps|unfold nativeNotifyCommitHappened_steps];
      native_safe.
    - apply safe_bind; [apply read_utf_chars_steps_safe|intros tok'].
      eapply safe_atom_bind; [apply JStringAccessor_keeps|intros url' _]. now apply session_call_steps_safe.
    - eapply safe_atom_bind; [apply JStringAccessor_keeps|intros tok' _]. now apply session_call_steps_safe.
    - now apply session_call_steps_safe. }
  refine (par_safe (shared_ok hs) _ _ Hc _).
  split; [|split]; [eapply Hnd; [|eassumption]; set_solver..|].
  split; [exact Ho|]. constructor; [exact H1|constructor; [exact H2|constructor]].
Qed.

End NoRace.

(** ** Unbind during bind *)

Section Race.
Context `{E : SyncEngine} `{P : Platform}.

(** Run a schedule on an abstract world: reduce, and rewrite with the
    facts about the world and the engine where the reduction is stuck. *)
Local Ltac sched_reduce rw :=
  repeat progress (cbn -[cstr_prefix mutf8 utf8_of_utf16];
                   cbv [mbind M_bind mret M_ret cxx_alloc throw engine modify
                        deref_session write_back delete_JNISession];
                   rw).

(** C10: The bridge does not serialise [nativeUnbind] against a call in
    flight on the same handle.  For every engine whose bind accepts the
    session, and every world where the handle's wrapper is live and the
    bind can run (a token, a valid URL, memory): bind-then-unbind ends
    normally with the wrapper deleted, but an unbind scheduled while the
    bind is inside the engine (after line 75 read the wrapper, before the
    engine's update lands) deletes the wrapper under it, and the update
    lands in a deleted wrapper: undefined behaviour. *)
Theorem bind_unbind_race h url tok w n js b s' :
  SS h <> 0 -> w_heap w !! SS h = Some js -> all_units tok ->
  w_jvm_oom w = false -> w_budget w = S (S n) -> utf8_of_utf16 url = Some b ->
  session_bind (js_session js) (Some b) (mutf8 tok) = inr s' ->
  (exists w', rtc par_step (Run (nativeBind_steps h (Some url) (Some tok)) (nativeUnbind_steps h) w)
                (Stop (Done ((), ()) w')) /\ w_heap w' = delete (SS h) (w_heap w)) /\
  rtc par_step (Run (nativeBind_steps h (Some url) (Some tok)) (nativeUnbind_steps h) w)
    (Stop (Undefined UB_DanglingSession)).
Proof.
  intros Hss Hl Ht Ho Hb Hu Hs.
  assert (Hc : cstr_prefix (mutf8 tok ++ [0]) = mutf8 tok) by now apply cstr_prefix_mutf8.
  split.
  - pose proof (run_sched_sound (repeat true 8 ++ [false; false; true])
                  (Run (nativeBind_steps h (Some url) (Some tok)) (nativeUnbind_steps h) w)) as Hr.
    set (c := run_sched _ _) in Hr.
    assert (Hw : match c with Stop (Done _ w') => w_heap w' = delete (SS h) (w_heap w) | _ => False end).
    { unfold c.
      sched_reduce ltac:(rewrite ?Ho, ?Hb, ?Hu, ?Hl, ?Hc, ?Hs, ?decide_False, ?lookup_insert_eq by exact Hss).
      apply delete_insert_eq. }
    destruct c as [|[[[] []] w'| |]]; try contradiction. eauto.
  - assert (Hr : run_sched (repeat true 6 ++ [false; false; true; true])
                    (Run (nativeBind_steps h (Some url) (Some tok)) (nativeUnbind_steps h) w)
                  = Stop (Undefined UB_DanglingSession)).
    { sched_reduce ltac:(rewrite ?Ho, ?Hb, ?Hu, ?Hl, ?Hc, ?Hs, ?decide_False, ?lookup_delete_eq by exact Hss); reflexivity. }
    rewrite <- Hr. apply run_sched_sound.
Qed.

End Race.

#[local] Existing Instance ref_engine.
#[local] Existing Instance platform64.

Lemma bind_unbind_race_witness :
  (exists w', rtc par_step (Run (nativeBind_steps 0x1000 (Some demo_url) (Some demo_token))
                              (nativeUnbind_steps 0x1000) demo_world) (Stop (Done ((), ()) w')) /\
              w_heap w' = delete (SS 0x1000) (w_heap demo_world)) /\
  rtc par_step (Run (nativeBind_steps 0x1000 (Some demo_url) (Some demo_token))
                  (nativeUnbind_steps 0x1000) demo_world) (Stop (Undefined UB_DanglingSession)).
Proof.
  use_theorem (bind_unbind_race 0x1000 demo_url demo_token demo_world 8 demo_session demo_url
                 (mk_ref_session [47; 97] (Some demo_url) demo_token 0)).
Defined.

Definition demo_bind_notify : cfg unit unit :=
  Run (nativeBind_steps 0x1000 (Some demo_url) (Some demo_token))
    (nativeNotifyCommitHappened_steps 0x1000 7) demo_world.

Lemma nondestructive_calls_safe_witness :
  rtc par_step demo_bind_notify (run_sched (repeat true 6 ++ repeat false 4 ++ [true; true]) demo_bind_notify) /\
  run_sched (repeat true 6 ++ repeat false 4 ++ [true; true]) demo_bind_notify <> Stop (Undefined UB_DanglingSession).
Proof.
  split; [apply run_sched_sound|].
  refine (nondestructive_calls_safe 0x1000 0x1000
           (nativeBind_steps 0x1000 (Some demo_url) (Some demo_token))
           (nativeNotifyCommitHappened_steps 0x1000 7) demo_world
           (run_sched (repeat true 6 ++ repeat false 4 ++ [true; true]) demo_bind_notify)
           _ _ _ _ _ _ UB_DanglingSession).
  - exact (nd_bind 0x1000 (Some demo_url) demo_token).
  - exact (nd_notify 0x1000 7).
  - vm_compute. reflexivity.
  - apply (bool_decide_unpack _). vm_compute. reflexivity.
  - apply (bool_decide_unpack _). vm_compute. reflexivity.
  - apply run_sched_sound.
Defined.

